(** * msk/actions/create.py: the skill scaffolding action

    A shallow embedding of [CreateAction] (template instantiation, the
    commit step and remote provisioning) together with the facts the
    specification states about it.

    Layout: Python string methods used by the module, the template
    constants, a file-system / process model with an exception monad,
    the methods of [CreateAction], and finally the theorems. *)

From stdpp Require Import gmap strings list fin_maps.
From Stdlib Require Import ZArith Ascii String.

Local Open Scope string_scope.
Local Open Scope list_scope.

(** ** Python [str] methods (ASCII fragment)

    Skill names are read through the regular expression
    [^[a-zA-Z \-]+$], so only ASCII letters matter for case mapping;
    bytes outside [A-Za-z] are left alone. *)

Module PyStr.

Definition is_upper (c : ascii) : bool :=
  let n := nat_of_ascii c in (65 <=? n)%nat && (n <=? 90)%nat.

Definition is_lower (c : ascii) : bool :=
  let n := nat_of_ascii c in (97 <=? n)%nat && (n <=? 122)%nat.

Definition is_alpha (c : ascii) : bool := is_upper c || is_lower c.

Definition to_upper (c : ascii) : ascii :=
  if is_lower c then ascii_of_nat (nat_of_ascii c - 32) else c.

Definition to_lower (c : ascii) : ascii :=
  if is_upper c then ascii_of_nat (nat_of_ascii c + 32) else c.

Fixpoint map_chars (f : ascii -> ascii) (s : string) : string :=
  match s with
  | EmptyString => EmptyString
  | String c r => String (f c) (map_chars f r)
  end.

(** [s.lower()] *)
Definition lower (s : string) : string := map_chars to_lower s.

(** [s.capitalize()]: first character upper-cased, the rest lower-cased. *)
Definition capitalize (s : string) : string :=
  match s with
  | EmptyString => EmptyString
  | String c r => String (to_upper c) (lower r)
  end.

(** [s.title()]: a letter is upper-cased when the previous character is
    not a letter, lower-cased otherwise. *)
Fixpoint title_from (prev_cased : bool) (s : string) : string :=
  match s with
  | EmptyString => EmptyString
  | String c r =>
      String (if prev_cased then to_lower c else to_upper c)
             (title_from (is_alpha c) r)
  end.

Definition title (s : string) : string := title_from false s.

(** [s.replace(old, new)] for one-character [old] and [new], the only
    form the module uses. *)
Definition replace (old new : ascii) (s : string) : string :=
  map_chars (fun c => if Ascii.eqb c old then new else c) s.

(** [s.split(sep)] for a one-character separator: always returns at
    least one segment, and adjacent separators give empty segments. *)
Fixpoint split (sep : ascii) (s : string) : list string :=
  match s with
  | EmptyString => [EmptyString]
  | String c r =>
      if Ascii.eqb c sep then EmptyString :: split sep r
      else match split sep r with
           | seg :: segs => String c seg :: segs
           | [] => [String c EmptyString]
           end
  end.

(** [sep.join(l)] *)
Definition join (sep : string) (l : list string) : string :=
  String.concat sep l.

(** [s.rstrip(chars)] for a one-character [chars]. *)
Fixpoint rstrip (ch : ascii) (s : string) : string :=
  match s with
  | EmptyString => EmptyString
  | String c r =>
      match rstrip ch r with
      | EmptyString => if Ascii.eqb c ch then EmptyString else String c EmptyString
      | r' => String c r'
      end
  end.

Fixpoint lstrip_by (p : ascii -> bool) (s : string) : string :=
  match s with
  | EmptyString => EmptyString
  | String c r => if p c then lstrip_by p r else s
  end.

Fixpoint rstrip_by (p : ascii -> bool) (s : string) : string :=
  match s with
  | EmptyString => EmptyString
  | String c r =>
      match rstrip_by p r with
      | EmptyString => if p c then EmptyString else String c EmptyString
      | r' => String c r'
      end
  end.

(** ASCII white space: space, tab, newline, vertical tab, form feed,
    carriage return and the separators 28..31. *)
Definition is_space (c : ascii) : bool :=
  let n := nat_of_ascii c in
  (n =? 32)%nat || ((9 <=? n)%nat && (n <=? 13)%nat)
  || ((28 <=? n)%nat && (n <=? 31)%nat).

(** [s.strip()] *)
Definition strip (s : string) : string := rstrip_by is_space (lstrip_by is_space s).

(** *** [str.format]

    The fragment used by the templates: [{{] and [}}] are literal
    braces, [{}] takes the next positional argument and [{name}] a
    keyword argument. A lone closing brace, an unterminated field, a
    missing argument or a brace inside a field name is an error. *)

Fixpoint kwarg (name : string) (kwargs : list (string * string)) : option string :=
  match kwargs with
  | [] => None
  | (k, v) :: rest => if String.eqb k name then Some v else kwarg name rest
  end.

Inductive fmt_state :=
| FLit
| FOpen
| FField (name : string)
| FClose.

Fixpoint format_from (st : fmt_state) (args : list string)
    (kwargs : list (string * string)) (tpl : string) : option string :=
  match tpl with
  | EmptyString => match st with FLit => Some EmptyString | _ => None end
  | String c r =>
      match st with
      | FLit =>
          if Ascii.eqb c "{" then format_from FOpen args kwargs r
          else if Ascii.eqb c "}" then format_from FClose args kwargs r
          else String c <$> format_from FLit args kwargs r
      | FOpen =>
          if Ascii.eqb c "{" then String c <$> format_from FLit args kwargs r
          else if Ascii.eqb c "}" then
            match args with
            | a :: args' => String.append a <$> format_from FLit args' kwargs r
            | [] => None
            end
          else format_from (FField (String c EmptyString)) args kwargs r
      | FField name =>
          if Ascii.eqb c "}" then
            match kwarg name kwargs with
            | Some v => String.append v <$> format_from FLit args kwargs r
            | None => None
            end
          else if Ascii.eqb c "{" then None
          else format_from (FField (name +:+ String c EmptyString)) args kwargs r
      | FClose =>
          if Ascii.eqb c "}" then String c <$> format_from FLit args kwargs r
          else None
      end
  end.

End PyStr.

Import PyStr.

(** [tpl.format] with positional and keyword arguments *)
Definition format (tpl : string) (args : list string)
    (kwargs : list (string * string)) : option string :=
  format_from FLit args kwargs tpl.

(** ** Module-level template constants

    The texts are those of the source, character for character. The
    settings template is full of double quotes; it is written here with
    apostrophes (it contains none of its own) and [requote] puts the
    double quotes back. *)

Definition dquote : ascii := ascii_of_nat 34.

Definition requote (s : string) : string :=
  map_chars (fun c => if Ascii.eqb c "'" then dquote else c) s.

Definition readme_template : string :=
"## {title_name}
{short_description}

## Description
{long_description}

## Examples
{examples}

{credits}
".

Definition credits_template : string :=
"## Credits
{author}

".

Definition init_template : string :=
"from adapt.intent import IntentBuilder
from mycroft import MycroftSkill, intent_file_handler


class {class_name}(MycroftSkill):
    def __init__(self):
        MycroftSkill.__init__(self)

    @intent_file_handler('{intent_name}.intent')
    def handle_{handler_name}(self, message):
        self.speak_dialog('{intent_name}')


def create_skill():
    return {class_name}()

".

Definition gitignore_template : string :=
"*.pyc
settings.json

".

Definition settingsmeta_template : string := requote
"{{
    'name': '{capital_desc}',
    'skillMetadata': {{
        'sections': [
            {{
                'name': 'Options << Name of section',
                'fields': [
                    {{
                        'name': 'internal_python_variable_name',
                        'type': 'text',
                        'label': 'Setting Friendly Display Name',
                        'value': '',
                        'placeholder': 'demo prompt in the input box'
                    }}
                ]
            }},
            {{
                'name': 'Login << Name of another section',
                'fields': [
                    {{
                        'type': 'label',
                        'label': 'Just a little bit of extra info for the user to understand following settings'
                    }},
                    {{
                        'name': 'username',
                        'type': 'text',
                        'label': 'Username',
                        'value': ''
                    }},
                    {{
                        'name': 'password',
                        'type': 'password',
                        'label': 'Password',
                        'value': ''
                    }}
                ]
            }}
        ]
    }}
}}".

(** The format string of one example line of the README: space, dash,
    space, the example between double quotes, newline. *)
Definition example_line_template : string := requote
" - '{}'
".

(** ** File system, process state and exceptions

    A path is the list of its components below the root; the empty
    component at the end of a path stands for a trailing slash, which
    is what [os.path.join(p, '')] produces. *)

Abbreviation pathname := (list string).

Record commit := {
  commit_id : nat;
  commit_message : string;
  commit_tree : list (pathname * string)
}.

(** A repository: commits (newest first), the staging area and the
    configured remotes. *)
Record repository := {
  commits : list commit;
  index : list (pathname * string);
  remotes : list (string * string)
}.

Definition empty_repository : repository :=
  {| commits := []; index := []; remotes := [] |}.

(** What sits at a path: a directory, a regular file, or the [.git]
    directory of a working tree, which carries the repository. *)
Inductive node :=
| Dir
| File (content : string)
| GitDir (r : repository).

Inductive exn :=
| FileExistsError (p : pathname)
| FileNotFoundError (p : pathname)
| NotADirectoryError (p : pathname)
| IsADirectoryError (p : pathname)
| KeyboardInterrupt
| FormatError
| GitCommandError
| GithubException (status : Z) (data : string)
| GithubRepoExists (repo_name : string).

(** The process: the file system, the [atexit] registry (callbacks in
    registration order; every callback of this module is a [cleanup]
    closure, identified by its allocation number and the directory it
    removes) and the closure allocation counter. *)
Record world := {
  fs : gmap pathname node;
  atexit : list (nat * pathname);
  closures : nat
}.

Definition set_fs (f : gmap pathname node -> gmap pathname node) (w : world) : world :=
  {| fs := f (fs w); atexit := atexit w; closures := closures w |}.

Inductive outcome (A : Type) :=
| Return (a : A) (w : world)
| Raise (e : exn) (w : world).
Arguments Return {A} a w.
Arguments Raise {A} e w.

Definition cmd (A : Type) : Type := world -> outcome A.

Definition ret {A} (a : A) : cmd A := fun w => Return a w.

Definition raise {A} (e : exn) : cmd A := fun w => Raise e w.

Definition bind {A B} (c : cmd A) (k : A -> cmd B) : cmd B :=
  fun w => match c w with
           | Return a w' => k a w'
           | Raise e w' => Raise e w'
           end.

Notation "'let!' x ':=' c 'in' k" := (bind c (fun x => k))
  (at level 10, x name, c at level 100, k at level 200).
Notation "c ';;' k" := (bind c (fun _ => k))
  (at level 100, k at level 200, right associativity).

(** [try: c except E: handler] where [catches] selects the exceptions
    the clause matches. *)
Definition try_except {A} (c : cmd A) (catches : exn -> bool) (handler : exn -> cmd A) : cmd A :=
  fun w => match c w with
           | Return a w' => Return a w'
           | Raise e w' => if catches e then handler e w' else Raise e w'
           end.

Definition final_world {A} (o : outcome A) : world :=
  match o with Return _ w => w | Raise _ w => w end.

Definition returns {A} (o : outcome A) : bool :=
  match o with Return _ _ => true | Raise _ _ => false end.

(** *** Path lookup *)

Definition is_dir_node (n : node) : bool :=
  match n with File _ => false | _ => true end.

(** The root always exists and is a directory. *)
Definition node_at (m : gmap pathname node) (p : pathname) : option node :=
  match p with
  | [] => Some Dir
  | _ => m !! p
  end.

(** [os.stat]: a trailing slash resolves only through a directory. *)
Definition stat (m : gmap pathname node) (p : pathname) : option node :=
  match last p with
  | Some EmptyString =>
      match node_at m (removelast p) with
      | Some n => if is_dir_node n then Some n else None
      | None => None
      end
  | _ => node_at m p
  end.

Definition exists_in (w : world) (p : pathname) : bool :=
  match stat (fs w) p with Some _ => true | None => false end.

Definition is_directory (w : world) (p : pathname) : bool :=
  match stat (fs w) p with Some n => is_dir_node n | None => false end.

(** [os.path.exists] and [os.path.isdir] *)
Definition path_exists (p : pathname) : cmd bool :=
  fun w => Return (exists_in w p) w.

Definition isdir (p : pathname) : cmd bool :=
  fun w => Return (is_directory w p) w.

(** [os.path.join(p, c)] for a relative component [c]. *)
Definition join_path (p : pathname) (c : string) : pathname := p ++ [c].

(** *** File-system commands *)

Definition parent_check (p : pathname) (k : cmd unit) : cmd unit :=
  fun w => match node_at (fs w) (removelast p) with
           | None => Raise (FileNotFoundError p) w
           | Some (File _) => Raise (NotADirectoryError p) w
           | Some _ => k w
           end.

(** [os.mkdir] *)
Definition mkdir (p : pathname) : cmd unit :=
  fun w => match node_at (fs w) p with
           | Some _ => Raise (FileExistsError p) w
           | None => parent_check p (fun w => Return tt (set_fs (insert p Dir) w)) w
           end.

Definition is_FileExistsError (e : exn) : bool :=
  match e with FileExistsError _ => true | _ => false end.

(** [os.makedirs(name)] with [exist_ok=False], by recursion on the
    reversed path: create the missing ancestors first (a
    [FileExistsError] from that recursive call is swallowed), then
    [mkdir] the leaf. *)
Fixpoint makedirs_rev (rname : list string) : cmd unit :=
  match rname with
  | [] => mkdir []
  | _ :: rhead =>
      let! head_exists := path_exists (reverse rhead) in
      (if negb head_exists
       then try_except (makedirs_rev rhead) is_FileExistsError (fun _ => ret tt)
       else ret tt) ;;
      mkdir (reverse rname)
  end.

Definition makedirs (name : pathname) : cmd unit := makedirs_rev (reverse name).

(** [with open(p, 'w') as f: f.write(text)] *)
Definition write_file (p : pathname) (text : string) : cmd unit :=
  fun w => match last p with
           | Some EmptyString => Raise (IsADirectoryError p) w
           | _ =>
               match node_at (fs w) p with
               | Some (File _) | None =>
                   parent_check p (fun w => Return tt (set_fs (insert p (File text)) w)) w
               | Some _ => Raise (IsADirectoryError p) w
               end
           end.

(** [shutil.rmtree(p)]: removes [p] and everything below it. *)
Definition rmtree (p : pathname) : cmd unit :=
  fun w => match stat (fs w) p with
           | None => Raise (FileNotFoundError p) w
           | Some (File _) => Raise (NotADirectoryError p) w
           | Some _ =>
               Return tt (set_fs (filter (fun kv => ¬ p `prefix_of` kv.1)) w)
           end.

(** *** The [atexit] registry *)

(** [def cleanup(): rmtree(path)] creates a new function object. *)
Definition new_cleanup (p : pathname) : cmd (nat * pathname) :=
  fun w => Return (closures w, p)
             {| fs := fs w; atexit := atexit w; closures := S (closures w) |}.

Definition atexit_register (f : nat * pathname) : cmd unit :=
  fun w => Return tt {| fs := fs w; atexit := atexit w ++ [f]; closures := closures w |}.

(** [atexit.unregister(f)] removes every registration of [f]; function
    objects compare by identity. *)
Definition atexit_unregister (f : nat * pathname) : cmd unit :=
  fun w => Return tt {| fs := fs w;
                        atexit := filter (fun g => g.1 ≠ f.1) (atexit w);
                        closures := closures w |}.

(** Interpreter exit: the registered callbacks run last-registered
    first; an exception escaping a callback is reported and dropped. *)
Fixpoint run_callbacks (l : list (nat * pathname)) (w : world) : world :=
  match l with
  | [] => w
  | (_, p) :: rest => run_callbacks rest (final_world (rmtree p w))
  end.

Definition run_exitfuncs (w : world) : world :=
  run_callbacks (reverse (atexit w))
    {| fs := fs w; atexit := []; closures := closures w |}.

(** The state left behind by a process that runs [c] and exits, whether
    [c] returned or an exception ended the run. *)
Definition run_process {A} (c : cmd A) (w : world) : world :=
  run_exitfuncs (final_world (c w)).

(** ** The [git] command line, as GitPython's [Git(working_dir)] drives it

    Only what the module observes is modelled: whether the working
    directory holds a repository, its commits, its staging area and its
    remotes. Repository discovery in parent directories and ignore
    patterns are not interpreted. *)

Definition render_path (p : pathname) : string := "/" +:+ join "/" p.

Definition git_dir (working_dir : pathname) : pathname := join_path working_dir ".git".

Definition repository_at (working_dir : pathname) (w : world) : option repository :=
  match node_at (fs w) (git_dir working_dir) with
  | Some (GitDir r) => Some r
  | _ => None
  end.

Definition set_repository (working_dir : pathname) (r : repository) : cmd unit :=
  fun w => Return tt (set_fs (insert (git_dir working_dir) (GitDir r)) w).

(** [git init]: needs the working directory; returns what the command
    prints. An existing repository is left as it is. *)
Definition git_init (working_dir : pathname) : cmd string :=
  let! there := isdir working_dir in
  if negb there then raise GitCommandError
  else fun w =>
    match node_at (fs w) (git_dir working_dir) with
    | Some (GitDir _) =>
        Return ("Reinitialized existing Git repository in "
                +:+ render_path (git_dir working_dir) +:+ "/") w
    | Some (File _) => Raise GitCommandError w
    | _ =>
        Return ("Initialized empty Git repository in "
                +:+ render_path (git_dir working_dir) +:+ "/")
               (set_fs (insert (git_dir working_dir) (GitDir empty_repository)) w)
    end.

(** Object names are forty hexadecimal digits; the commit number stands
    for the hash. *)
Definition hex_digit (n : N) : ascii :=
  match n with
  | 0 => "0" | 1 => "1" | 2 => "2" | 3 => "3" | 4 => "4" | 5 => "5"
  | 6 => "6" | 7 => "7" | 8 => "8" | 9 => "9" | 10 => "a" | 11 => "b"
  | 12 => "c" | 13 => "d" | 14 => "e" | _ => "f"
  end%N%char.

Fixpoint hex_digits (width : nat) (n : N) (acc : string) : string :=
  match width with
  | O => acc
  | S width' => hex_digits width' (n / 16)%N (String (hex_digit (n mod 16)%N) acc)
  end.

Definition object_name (c : commit) : string :=
  hex_digits 40 (N.of_nat (commit_id c)) EmptyString.

(** [git rev-parse HEAD] with [with_exceptions=False]: the standard
    output of the command. With no commit the argument is echoed back;
    outside a repository nothing is printed. *)
Definition rev_parse_HEAD (working_dir : pathname) : cmd string :=
  fun w => match repository_at working_dir w with
           | None => Return EmptyString w
           | Some r =>
               match commits r with
               | [] => Return "HEAD" w
               | c :: _ => Return (object_name c) w
               end
           end.

(** The regular files of the working tree, [.git] excluded, with their
    paths relative to the working directory. *)
Definition relative_to (working_dir p : pathname) : option pathname :=
  if decide (working_dir `prefix_of` p)
  then Some (drop (List.length working_dir) p) else None.

Definition worktree_files (working_dir : pathname) (w : world) : list (pathname * string) :=
  omap (fun kv =>
          match kv.2, relative_to working_dir kv.1 with
          | File text, Some rel =>
              if decide (git_dir working_dir `prefix_of` kv.1) then None
              else Some (rel, text)
          | _, _ => None
          end)
       (map_to_list (fs w)).

(** [git add .] *)
Definition git_add_all (working_dir : pathname) : cmd unit :=
  fun w => match repository_at working_dir w with
           | None => Raise GitCommandError w
           | Some r =>
               set_repository working_dir
                 {| commits := commits r;
                    index := worktree_files working_dir w;
                    remotes := remotes r |} w
           end.

(** [git commit -m message] *)
Definition git_commit (working_dir : pathname) (message : string) : cmd unit :=
  fun w => match repository_at working_dir w with
           | None => Raise GitCommandError w
           | Some r =>
               set_repository working_dir
                 {| commits := {| commit_id := List.length (commits r);
                                  commit_message := message;
                                  commit_tree := index r |} :: commits r;
                    index := index r;
                    remotes := remotes r |} w
           end.

(** [git remote]: the names of the remotes, one per line. *)
Definition git_remote (working_dir : pathname) : cmd string :=
  fun w => match repository_at working_dir w with
           | None => Raise GitCommandError w
           | Some r => Return (join (String "010" EmptyString) (remotes r).*1) w
           end.

(** [git remote add name url] *)
Definition git_remote_add (working_dir : pathname) (name url : string) : cmd unit :=
  fun w => match repository_at working_dir w with
           | None => Raise GitCommandError w
           | Some r =>
               if bool_decide (name ∈ (remotes r).*1) then Raise GitCommandError w
               else set_repository working_dir
                      {| commits := commits r;
                         index := index r;
                         remotes := remotes r ++ [(name, url)] |} w
           end.

(** ** [CreateAction]

    The lazily computed attributes that ask the user are determined by
    what the user will answer; [Interrupted] is a prompt that the user
    leaves with an interrupt. The name is taken as already chosen (it is
    either passed to the constructor or confirmed at the prompt). *)

Inductive prompt (A : Type) :=
| Answered (a : A)
| Interrupted.
Arguments Answered {A} a.
Arguments Interrupted {A}.

Definition ask {A} (p : prompt A) : cmd A :=
  match p with
  | Answered a => ret a
  | Interrupted => raise KeyboardInterrupt
  end.

Record CreateAction := {
  skills_dir : pathname;
  name : string;
  lang_input : prompt string;
  short_description_input : prompt string;
  author_input : prompt string;
  examples_input : prompt (list string);
  long_description_input : prompt (list string)
}.

(** Values a template handler may return. *)
Inductive pyval :=
| PNone
| PStr (text : string).

Definition newline : string := String "010" EmptyString.

(** [str.format] raises on a malformed template or a missing argument. *)
Definition format_or_raise (tpl : string) (args : list string)
    (kwargs : list (string * string)) : cmd string :=
  match format tpl args kwargs with
  | Some text => ret text
  | None => raise FormatError
  end.

Definition capitalize_first (word : string) : string :=
  match word with
  | EmptyString => EmptyString
  | String c r => String (to_upper c) r
  end.

(** Modelled from the spec: [msk.util.to_camel] is imported by the
    module and its source is not at hand. The specification describes
    the conversion as kebab-case to PascalCase; the argument arrives
    with the hyphens already replaced by underscores, so every
    underscore-separated word gets its first letter in upper case and
    the words are concatenated. *)
Definition to_camel (snake : string) : string :=
  String.concat EmptyString (map capitalize_first (split "_" snake)).

(** The two names shown for confirmation inside the [name] attribute. *)
Definition class_name (name : string) : option string :=
  format "{}Skill" [to_camel (replace "-" "_" name)] [].

Definition repo_name (name : string) : option string :=
  format "{}-skill" [name] [].

Definition path (s : CreateAction) : pathname :=
  join_path (skills_dir s) (name s +:+ "-skill").

Definition lang (s : CreateAction) : cmd string :=
  let! answer := ask (lang_input s) in
  ret (let l := lower answer in if String.eqb l EmptyString then "en-us" else l).

Definition short_description (s : CreateAction) : cmd string :=
  let! answer := ask (short_description_input s) in ret (capitalize answer).

Definition author (s : CreateAction) : cmd string := ask (author_input s).

Definition examples (s : CreateAction) : cmd (list string) :=
  let! lines := ask (examples_input s) in
  ret (map (fun i => rstrip "." (capitalize i)) lines).

Definition long_description (s : CreateAction) : cmd string :=
  let! lines := ask (long_description_input s) in
  ret (capitalize (strip (join (newline +:+ newline) lines))).

Definition intent_name (s : CreateAction) : string :=
  join "." (reverse (split "-" (name s))).

Fixpoint format_each (tpl : string) (items : list string) : cmd (list string) :=
  match items with
  | [] => ret []
  | i :: rest =>
      let! line := format_or_raise tpl [i] [] in
      let! lines := format_each tpl rest in
      ret (line :: lines)
  end.

Definition readme (s : CreateAction) : cmd string :=
  let title_name := title (replace "-" " " (name s)) in
  let! short := short_description s in
  let! long := long_description s in
  let! exs := examples s in
  let! lines := format_each example_line_template exs in
  let! who := author s in
  let! credits := format_or_raise credits_template [] [("author", who)] in
  format_or_raise readme_template []
    [("title_name", title_name); ("short_description", short);
     ("long_description", long); ("examples", join EmptyString lines);
     ("credits", credits)].

Definition init_file (s : CreateAction) : cmd string :=
  format_or_raise init_template []
    [("class_name", to_camel (replace "-" "_" (name s)));
     ("handler_name", replace "." "_" (intent_name s));
     ("intent_name", intent_name s)].

Definition add_vocab (s : CreateAction) : cmd pyval :=
  let! l := lang s in
  makedirs (join_path (join_path (path s) "vocab") l) ;;
  write_file
    (join_path (join_path (join_path (path s) "vocab") l) (intent_name s +:+ ".intent"))
    (capitalize (replace "." " " (intent_name s)) +:+ newline +:+ newline) ;;
  ret PNone.

Definition add_dialog (s : CreateAction) : cmd pyval :=
  let! l := lang s in
  makedirs (join_path (join_path (path s) "dialog") l) ;;
  write_file
    (join_path (join_path (join_path (path s) "dialog") l) (intent_name s +:+ ".dialog"))
    (capitalize (replace "-" " " (name s)) +:+ newline +:+ newline) ;;
  ret PNone.

Definition settingsmeta (s : CreateAction) : cmd string :=
  format_or_raise settingsmeta_template []
    [("capital_desc", capitalize (replace "-" " " (name s)))].

Abbreviation entry := (string * cmd pyval)%type.

Definition skill_template (s : CreateAction) : list entry :=
  [ (EmptyString, makedirs (path s) ;; ret PNone);
    ("__init__.py", let! text := init_file s in ret (PStr text));
    ("README.md", let! text := readme s in ret (PStr text));
    ("vocab", add_vocab s);
    ("dialog", add_dialog s);
    (".gitignore", ret (PStr gitignore_template));
    ("settingsmeta.json", let! text := settingsmeta s in ret (PStr text));
    (".git", let! out := git_init (path s) in ret (PStr out)) ].

(** The truth value of the [files] argument: [None] and the empty set
    are both false. *)
Definition truthy (files : option (gset string)) : bool :=
  match files with
  | None => false
  | Some fset => negb (bool_decide (fset = ∅))
  end.

Definition member (file : string) (files : option (gset string)) : bool :=
  match files with
  | None => false
  | Some fset => bool_decide (file ∈ fset)
  end.

(** One iteration of the loop of [initialize_template]. *)
Definition run_entry (dir : pathname) (files : option (gset string)) (e : entry) : cmd unit :=
  if truthy files && negb (member e.1 files) then ret tt
  else
    let! there := path_exists (join_path dir e.1) in
    if negb there then
      let! result := e.2 in
      match result with
      | PStr text =>
          let! now_there := path_exists (join_path dir e.1) in
          if negb now_there then write_file (join_path dir e.1) text else ret tt
      | PNone => ret tt
      end
    else ret tt.

Fixpoint for_each {A} (l : list A) (body : A -> cmd unit) : cmd unit :=
  match l with
  | [] => ret tt
  | x :: rest => body x ;; for_each rest body
  end.

(** [initialize_template] over an arbitrary template, and the method
    itself on the template of the skill. *)
Definition instantiate (dir : pathname) (template : list entry)
    (files : option (gset string)) : cmd unit :=
  let! cleanup := new_cleanup dir in
  let! there := isdir dir in
  (if negb there then atexit_register cleanup else ret tt) ;;
  for_each template (run_entry dir files) ;;
  atexit_unregister cleanup.

Definition initialize_template (s : CreateAction) (files : option (gset string)) : cmd unit :=
  instantiate (path s) (skill_template s) files.

Definition commit_changes (s : CreateAction) : cmd unit :=
  let! head := rev_parse_HEAD (path s) in
  if String.eqb head "HEAD" then
    git_add_all (path s) ;;
    git_commit (path s) "Initial commit"
  else ret tt.

(** The hosting service: what the user answers to the confirmation and
    credential prompts, and how the API responds to [create_repo]. *)
Inductive api_response :=
| Created (html_url : string)
| ApiError (status : Z) (data : string).

Record hosting := {
  confirm_input : prompt bool;
  credentials_input : prompt unit;
  create_repo : string -> string -> api_response
}.

Definition user_create_repo (gh : hosting) (repo_name description : string) : cmd string :=
  match create_repo gh repo_name description with
  | Created url => ret url
  | ApiError status data => raise (GithubException status data)
  end.

Definition is_GithubException (e : exn) : bool :=
  match e with GithubException _ _ => true | _ => false end.

(** [get_repo_name], when given, is the name its call returns; an empty
    result falls back to the default name. The value returned by the
    method is the URL of the created repository. *)
Definition create_github_repo (s : CreateAction) (gh : hosting)
    (get_repo_name : option string) : cmd (option string) :=
  let! out := git_remote (path s) in
  if negb (bool_decide ("origin" ∈ split "010" out)) then
    let! yes := ask (confirm_input gh) in
    if (yes : bool) then
      ask (credentials_input gh) ;;
      let repo_name :=
        match get_repo_name with
        | Some n => if String.eqb n EmptyString then name s +:+ "-skill" else n
        | None => name s +:+ "-skill"
        end in
      let! url :=
        try_except
          (let! description := short_description s in
           user_create_repo gh repo_name description)
          is_GithubException
          (fun e => match e with
                    | GithubException status _ =>
                        if (status =? 422)%Z then raise (GithubRepoExists repo_name)
                        else raise e
                    | _ => raise e
                    end) in
      git_remote_add (path s) "origin" url ;;
      ret (Some url)
    else ret None
  else ret None.

Definition is_GithubRepoExists (e : exn) : bool :=
  match e with GithubRepoExists _ => true | _ => false end.

(** Modelled from the spec: [msk.util.print_error] is imported by the
    module and its source is not at hand. The specification says of the
    failure it is given that it is caught at the top level and reported
    to the user without aborting the operation; so: an exception of the
    given kind raised by the body ends the body and is swallowed, any
    other propagates. *)
Definition print_error (catches : exn -> bool) (body : cmd unit) : cmd unit :=
  try_except body catches (fun _ => ret tt).

(** [perform]: the three steps, the last one under
    [print_error(GithubRepoExists)]. *)
Definition perform (s : CreateAction) (gh : hosting) : cmd unit :=
  initialize_template s None ;;
  commit_changes s ;;
  print_error is_GithubRepoExists (create_github_repo s gh None ;; ret tt).

(** [answer.lower() or 'en-us'] *)
Definition locale (answer : string) : string :=
  if decide (answer = EmptyString) then "en-us" else lower answer.

(** *** The [name] attribute

    The body of the lazily computed [name]: a loop that asks for a name
    until the user confirms one. Each round of the loop has its answers
    fixed in advance: the raw name (already accepted by the validator of
    the prompt), whether to remove a skill of that name if there is one,
    and whether the derived names look good. A session that runs out of
    rounds ends like an interrupted prompt. *)

Definition space_or_hyphen (c : ascii) : bool := Ascii.eqb c " " || Ascii.eqb c "-".

(** The character class of the validator, [a-zA-Z \-]. *)
Definition name_char (c : ascii) : bool := is_alpha c || space_or_hyphen c.

Fixpoint all_chars (p : ascii -> bool) (x : string) : bool :=
  match x with
  | EmptyString => true
  | String c r => p c && all_chars p r
  end.

Definition head_char (x : string) : option ascii :=
  match x with
  | EmptyString => None
  | String c _ => Some c
  end.

Fixpoint last_char (x : string) : option ascii :=
  match x with
  | EmptyString => None
  | String c EmptyString => Some c
  | String _ r => last_char r
  end.

(** [raw.strip(' -').lower().replace(' ', '-')] *)
Definition normalize_name (raw : string) : string :=
  replace " " "-" (lower (rstrip_by space_or_hyphen (lstrip_by space_or_hyphen raw))).

(** What [lower] followed by [replace(' ', '-')] does to one character. *)
Definition name_map (c : ascii) : ascii :=
  if Ascii.eqb (to_lower c) " " then "-"%char else to_lower c.

(** The characters of a kebab-case name. *)
Definition kebab_char (c : ascii) : bool := is_lower c || Ascii.eqb c "-".

(** An installed skill, as [msm.list()] reports it. *)
Record skill_entry := {
  entry_name : string;
  entry_author : string;
  entry_path : pathname
}.

(** [{skill.name: skill for skill in skills}]: a later skill of the
    same name replaces an earlier one. *)
Definition name_to_skill (skills : list skill_entry) : gmap string skill_entry :=
  foldl (fun m sk => <[entry_name sk := sk]> m) ∅ skills.

(** [table.get(name, table.get(name + '-skill'))] *)
Definition find_skill (table : gmap string skill_entry) (name : string) : option skill_entry :=
  match table !! name with
  | Some sk => Some sk
  | None => table !! (name +:+ "-skill")
  end.

Record name_round := {
  raw_answer : prompt string;
  remove_answer : prompt bool;
  looks_good_answer : prompt bool
}.

Fixpoint ask_name (table : gmap string skill_entry) (rounds : list name_round) : cmd string :=
  match rounds with
  | [] => raise KeyboardInterrupt
  | round :: rest =>
      let! raw := ask (raw_answer round) in
      let name := normalize_name raw in
      let! go_on :=
        match find_skill table name with
        | Some skill =>
            let! remove := ask (remove_answer round) in
            if (remove : bool) then rmtree (entry_path skill) ;; ret true
            else ret false
        | None => ret true
        end in
      if (go_on : bool) then
        let! alright := ask (looks_good_answer round) in
        if (alright : bool) then ret name else ask_name table rest
      else ask_name table rest
  end.

(** The [name] attribute of an action created without a name. *)
Definition ask_skill_name (skills : list skill_entry) (rounds : list name_round) : cmd string :=
  ask_name (name_to_skill skills) rounds.

(** ** Sample data used by the examples below *)

Definition sample_dir : pathname := ["opt"; "mycroft"; "skills"].

Definition sample_fs : gmap pathname node :=
  <[ ["opt"; "mycroft"; "skills"] := Dir ]>
  (<[ ["opt"; "mycroft"] := Dir ]> (<[ ["opt"] := Dir ]> ∅)).

Definition sample_world : world :=
  {| fs := sample_fs; atexit := []; closures := 0 |}.

Definition sample_skill : CreateAction :=
  {| skills_dir := sample_dir;
     name := "pizza-orderer";
     lang_input := Answered EmptyString;
     short_description_input := Answered "orders fresh pizzas from the store";
     author_input := Answered "someone";
     examples_input := Answered ["order a pizza."; "get me a pizza"];
     long_description_input := Answered ["this skill orders pizza"] |}.

(** ** Vocabulary of the statements, and more sample data *)

(** Every node of [m] is still in [m'], with the same kind (directory
    or regular file). *)
Definition keeps_nodes (m m' : gmap pathname node) : Prop :=
  ∀ p n, node_at m p = Some n →
         ∃ n', node_at m' p = Some n' ∧ is_dir_node n' = is_dir_node n.

(** [grows w w']: nothing was removed from the file system, and the
    [atexit] registry and the closure counter are as they were. *)
Record grows (w w' : world) : Prop := {
  grows_fs : keeps_nodes (fs w) (fs w');
  grows_atexit : atexit w' = atexit w;
  grows_closures : closures w' = closures w
}.

(** A command that stays within [grows], whether it returns or raises. *)
Definition frame {A} (c : cmd A) : Prop := ∀ w, grows w (final_world (c w)).

(** An entry passes the guard [if files and file not in files: continue]. *)
Definition selected (files : option (gset string)) (e : entry) : bool :=
  negb (truthy files && negb (member e.1 files)).

(** The [cleanup] closure that a call of [initialize_template] in [w]
    creates. *)
Definition cleanup_of (dir : pathname) (w : world) : nat * pathname := (closures w, dir).

(** The world in which the loop starts. *)
Definition loop_start (dir : pathname) (w : world) : world :=
  {| fs := fs w;
     atexit := if is_directory w dir then atexit w else atexit w ++ [cleanup_of dir w];
     closures := S (closures w) |}.

(** Paths that do not end in a slash and are not the root. *)
Definition plain (p : pathname) : Prop :=
  ∀ m : gmap pathname node, stat m p = m !! p.

(** A skill whose README prompts are left with an interrupt. *)
Definition interrupted_skill : CreateAction :=
  {| skills_dir := sample_dir;
     name := "siren-alarm";
     lang_input := Answered "en-us";
     short_description_input := Interrupted;
     author_input := Interrupted;
     examples_input := Interrupted;
     long_description_input := Interrupted |}.

(** The sample file system with the directory of that skill in place. *)
Definition resumed_world : world :=
  {| fs := <[path interrupted_skill := Dir]> sample_fs; atexit := []; closures := 0 |}.

(** A handler that returns [None] has created the path of its entry. *)
Definition creates (dir : pathname) (e : entry) : Prop :=
  ∀ w w', e.2 w = Return PNone w' → exists_in w' (join_path dir e.1) = true.

(** The last entry of the template: [git init] prints a line, which the
    handler returns, and creates [.git] itself. *)
Definition git_entry (s : CreateAction) : entry :=
  (".git", let! out := git_init (path s) in ret (PStr out)).

(** [resumed_world] once [git init] has run in the skill directory. *)
Definition after_git_init : world :=
  set_fs (insert (git_dir (path interrupted_skill)) (GitDir empty_repository)) resumed_world.

(** The text of the settings template before and after its only
    replacement field, with the doubled braces of the format string
    read as single ones. *)
Definition settingsmeta_head : string := requote
"{
    'name': '".

Definition settingsmeta_tail : string := requote
"',
    'skillMetadata': {
        'sections': [
            {
                'name': 'Options << Name of section',
                'fields': [
                    {
                        'name': 'internal_python_variable_name',
                        'type': 'text',
                        'label': 'Setting Friendly Display Name',
                        'value': '',
                        'placeholder': 'demo prompt in the input box'
                    }
                ]
            },
            {
                'name': 'Login << Name of another section',
                'fields': [
                    {
                        'type': 'label',
                        'label': 'Just a little bit of extra info for the user to understand following settings'
                    },
                    {
                        'name': 'username',
                        'type': 'text',
                        'label': 'Username',
                        'value': ''
                    },
                    {
                        'name': 'password',
                        'type': 'password',
                        'label': 'Password',
                        'value': ''
                    }
                ]
            }
        ]
    }
}".

(** A command that leaves whatever is at [q] as it is. *)
Definition untouched {A} (q : pathname) (c : cmd A) : Prop :=
  ∀ w, fs (final_world (c w)) !! q = fs w !! q.

(** The settings file of a skill and its entry in the template. *)
Definition settings_path (s : CreateAction) : pathname :=
  join_path (path s) "settingsmeta.json".

Definition settings_entry (s : CreateAction) : entry :=
  ("settingsmeta.json", let! text := settingsmeta s in ret (PStr text)).

(** The value written after the key [name] in a settings text: what
    follows the head of the template, up to the closing double quote. *)
Fixpoint until_quote (s : string) : string :=
  match s with
  | EmptyString => EmptyString
  | String c r => if Ascii.eqb c dquote then EmptyString else String c (until_quote r)
  end.

Definition settings_value (n : option node) : option string :=
  match n with
  | Some (File text) =>
      Some (until_quote (substring (String.length settingsmeta_head)
                                   (String.length text) text))
  | _ => None
  end.

(** [c in s] for a character [c]. *)
Fixpoint contains (c : ascii) (s : string) : bool :=
  match s with
  | EmptyString => false
  | String a r => Ascii.eqb a c || contains c r
  end.

(** The state after the sample skill has been instantiated: a working
    tree with a repository that has no commit yet. *)
Definition fresh_repository_world : world :=
  final_world (initialize_template sample_skill None sample_world).

(** The repository name [create_github_repo] asks the service for. *)
Definition chosen_repo_name (s : CreateAction) (get_repo_name : option string) : string :=
  match get_repo_name with
  | Some n => if String.eqb n EmptyString then name s +:+ "-skill" else n
  | None => name s +:+ "-skill"
  end.

(** A working tree of the sample skill with one commit and no remote. *)
Definition committed_world : world :=
  {| fs := <[git_dir (path sample_skill) :=
               GitDir {| commits := [ {| commit_id := 0;
                                         commit_message := "Initial commit";
                                         commit_tree := [] |} ];
                         index := [];
                         remotes := [] |}]>
           (<[path sample_skill := Dir]> sample_fs);
     atexit := [];
     closures := 1 |}.

(** A user who confirms, and a service that refuses with [status]. *)
Definition refusing_host (status : Z) : hosting :=
  {| confirm_input := Answered true;
     credentials_input := Answered tt;
     create_repo := fun _ _ => ApiError status "refused" |}.

(** ** Vocabulary and sample data of the further properties *)

(** A repository with an origin remote, and a user who leaves every
    prompt with an interrupt. *)
Definition published_world : world :=
  {| fs := <[git_dir (path sample_skill) :=
               GitDir {| commits := [];
                         index := [];
                         remotes := [("backup", "https://example.org/b.git");
                                     ("origin", "https://example.org/o.git")] |}]>
           (<[path sample_skill := Dir]> sample_fs);
     atexit := [];
     closures := 1 |}.

Definition absent_user : hosting :=
  {| confirm_input := Interrupted;
     credentials_input := Interrupted;
     create_repo := fun _ _ => ApiError 500 "unreachable" |}.

Definition accepting_host (url : string) : hosting :=
  {| confirm_input := Answered true;
     credentials_input := Answered tt;
     create_repo := fun _ _ => Created url |}.

(** The names of the configured remotes contain no line break. *)
Definition remote_names_clean (r : repository) : Prop :=
  Forall (fun n => contains "010" n = false) (remotes r).*1.

Definition with_remote (r : repository) (name url : string) : repository :=
  {| commits := commits r; index := index r; remotes := remotes r ++ [(name, url)] |}.

(** One line of the examples section of the README. *)
Definition example_line (i : string) : string :=
  " - " +:+ String dquote (i +:+ String dquote newline).

(** The README for given field values. *)
Definition readme_text (title_name short long : string) (lines : list string)
    (who : string) : string :=
  "## " +:+ title_name +:+ newline +:+ short +:+ newline +:+ newline +:+
  "## Description" +:+ newline +:+ long +:+ newline +:+ newline +:+
  "## Examples" +:+ newline +:+ join EmptyString lines +:+ newline +:+ newline +:+
  "## Credits" +:+ newline +:+ who +:+ newline +:+ newline +:+ newline.

(** The code stub for given class, handler and intent names. *)
Definition init_text (class handler intent : string) : string :=
"from adapt.intent import IntentBuilder
from mycroft import MycroftSkill, intent_file_handler


class " +:+ class +:+ "(MycroftSkill):
    def __init__(self):
        MycroftSkill.__init__(self)

    @intent_file_handler('" +:+ intent +:+ ".intent')
    def handle_" +:+ handler +:+ "(self, message):
        self.speak_dialog('" +:+ intent +:+ "')


def create_skill():
    return " +:+ class +:+ "()

".

(** A session in which the user agrees to remove an installed skill,
    rejects the derived names, and then enters the same name again. *)
Definition installed_alarm : skill_entry :=
  {| entry_name := "siren-alarm-skill";
     entry_author := "someone";
     entry_path := path interrupted_skill |}.

Definition second_thoughts : list name_round :=
  [ {| raw_answer := Answered "Siren Alarm";
       remove_answer := Answered true;
       looks_good_answer := Answered false |};
    {| raw_answer := Answered "siren alarm";
       remove_answer := Answered true;
       looks_good_answer := Answered true |} ].

(** A session in which the user has the installed skill replaced. *)
Definition replacing_session : list name_round :=
  [ {| raw_answer := Answered " Siren Alarm ";
       remove_answer := Answered true;
       looks_good_answer := Answered true |} ].

(** The file system after a first instantiation of [s] with locale [l]
    and README text [readme_text]: the twelve nodes of a new skill on
    top of [m]. *)
Definition skill_tree (s : CreateAction) (l readme_text : string)
    (m : gmap pathname node) : gmap pathname node :=
  <[path s ++ [".git"] := GitDir empty_repository]>
  (<[path s ++ ["settingsmeta.json"] :=
       File (settingsmeta_head +:+ capitalize (replace "-" " " (name s))
             +:+ settingsmeta_tail)]>
  (<[path s ++ [".gitignore"] := File gitignore_template]>
  (<[((path s ++ ["dialog"]) ++ [l]) ++ [intent_name s +:+ ".dialog"] :=
       File (capitalize (replace "-" " " (name s)) +:+ newline +:+ newline)]>
  (<[(path s ++ ["dialog"]) ++ [l] := Dir]>
  (<[path s ++ ["dialog"] := Dir]>
  (<[((path s ++ ["vocab"]) ++ [l]) ++ [intent_name s +:+ ".intent"] :=
       File (capitalize (replace "." " " (intent_name s)) +:+ newline +:+ newline)]>
  (<[(path s ++ ["vocab"]) ++ [l] := Dir]>
  (<[path s ++ ["vocab"] := Dir]>
  (<[path s ++ ["README.md"] := File readme_text]>
  (<[path s ++ ["__init__.py"] :=
       File (init_text (to_camel (replace "-" "_" (name s)))
                       (replace "." "_" (intent_name s)) (intent_name s))]>
  (<[path s := Dir]> m))))))))))).

(** [p] is a directory, for [os.path.exists] (which resolves a trailing
    slash) and as the parent of a new node. *)
Definition directory_at (w : world) (p : pathname) : Prop :=
  exists_in w p = true
  ∧ ∃ k, node_at (fs w) p = Some k ∧ is_dir_node k = true.

(** Nothing is at [p] or below it. *)
Definition vacant (w : world) (p : pathname) : Prop :=
  ∀ q, p `prefix_of` q → fs w !! q = None.

(** A skill whose prompts are all answered. *)
Record answers := {
  answer_lang : string;
  answer_short : string;
  answer_long : list string;
  answer_examples : list string;
  answer_author : string
}.

Definition answered (s : CreateAction) (a : answers) : Prop :=
  lang_input s = Answered (answer_lang a)
  ∧ short_description_input s = Answered (answer_short a)
  ∧ long_description_input s = Answered (answer_long a)
  ∧ examples_input s = Answered (answer_examples a)
  ∧ author_input s = Answered (answer_author a).

Definition locale_of (a : answers) : string := locale (answer_lang a).

Definition readme_of (s : CreateAction) (a : answers) : string :=
  readme_text (title (replace "-" " " (name s)))
    (capitalize (answer_short a))
    (capitalize (strip (join (newline +:+ newline) (answer_long a))))
    (map (fun i => example_line (rstrip "." (capitalize i))) (answer_examples a))
    (answer_author a).

Definition sample_answers : answers :=
  {| answer_lang := EmptyString;
     answer_short := "orders fresh pizzas from the store";
     answer_long := ["this skill orders pizza"];
     answer_examples := ["order a pizza."; "get me a pizza"];
     answer_author := "someone" |}.

(** The sample world after the sample skill has been instantiated. *)
Definition sample_installed : world :=
  {| fs := skill_tree sample_skill "en-us" (readme_of sample_skill sample_answers) sample_fs;
     atexit := [];
     closures := 1 |}.

(** Every identifier in the registry was allocated before: the next
    closure is a new function object. *)
Definition registry_fresh (w : world) : Prop :=
  Forall (fun g : nat * pathname => g.1 < closures w) (atexit w).

(** A well-formed tree: whatever exists lies in a directory. *)
Definition fs_wf (m : gmap pathname node) : Prop :=
  ∀ p n, m !! p = Some n → p ≠ [] →
         ∃ k, node_at m (removelast p) = Some k ∧ is_dir_node k = true.

(** Every regular file of [w] is in [w'] with the same content. *)
Definition keeps_files (w w' : world) : Prop :=
  ∀ q text, fs w !! q = Some (File text) → fs w' !! q = Some (File text).

(** A command that, on a well-formed tree, leaves a well-formed tree and
    overwrites no file, whether it returns or raises. *)
Definition careful {A} (c : cmd A) : Prop :=
  ∀ w, fs_wf (fs w) →
       fs_wf (fs (final_world (c w))) ∧ keeps_files w (final_world (c w)).

(** The check behind [fs_wf], for a given tree. *)
Definition fs_wf_check (m : gmap pathname node) : bool :=
  forallb (fun kv : pathname * node =>
             match kv.1 with
             | [] => true
             | _ => match node_at m (removelast kv.1) with
                    | Some k => is_dir_node k
                    | None => false
                    end
             end)
          (map_to_list m).

(** A skill directory that already holds a README of the user's own. *)
Definition hand_written_world : world :=
  {| fs := <[path sample_skill ++ ["README.md"] := File "my own notes"]>
           (<[path sample_skill := Dir]> sample_fs);
     atexit := [];
     closures := 0 |}.

(** A user who declines the offer of a remote repository. *)
Definition declining_user : hosting :=
  {| confirm_input := Answered false;
     credentials_input := Interrupted;
     create_repo := fun _ _ => ApiError 500 "unreachable" |}.

(** [resumed_world] once [add_vocab] has run for the locale en-us. *)
Definition vocab_added_world : world :=
  set_fs (fun m =>
            <[((path interrupted_skill ++ ["vocab"]) ++ ["en-us"])
                ++ [intent_name interrupted_skill +:+ ".intent"] :=
                File (capitalize (replace "." " " (intent_name interrupted_skill))
                      +:+ newline +:+ newline)]>
            (<[(path interrupted_skill ++ ["vocab"]) ++ ["en-us"] := Dir]>
            (<[path interrupted_skill ++ ["vocab"] := Dir]> m)))
         resumed_world.

(** A command that, as long as the skills directory exists, leaves
    everything outside the skill directory as it is, and the path of the
    skill itself as it is or a directory. *)
Definition confined (s : CreateAction) {A} (c : cmd A) : Prop :=
  ∀ w, exists_in w (skills_dir s) = true →
       (∀ q, ¬ path s `prefix_of` q → fs (final_world (c w)) !! q = fs w !! q)
       ∧ (fs (final_world (c w)) !! path s = fs w !! path s
          ∨ fs (final_world (c w)) !! path s = Some Dir).

(** * Properties *)

(** ** The string methods and the model on small inputs *)

Example split_keeps_empty_segments : split "-" "a--b-" = ["a"; ""; "b"; ""].
Proof. reflexivity. Qed.

Example title_of_words : title "pizza orderer" = "Pizza Orderer".
Proof. reflexivity. Qed.

Example capitalize_lowers_the_rest : capitalize "hello World" = "Hello world".
Proof. reflexivity. Qed.

Example rstrip_only_at_the_end : rstrip "." "a.b.." = "a.b".
Proof. reflexivity. Qed.

Example format_braces_and_fields :
  format "{{a}} {} {k}" ["x"] [("k", "v")] = Some "{a} x v".
Proof. reflexivity. Qed.

Example format_missing_keyword : format "{k}" [] [] = None.
Proof. reflexivity. Qed.

Example template_lengths :
  (String.length readme_template, String.length credits_template,
   String.length init_template, String.length gitignore_template,
   String.length settingsmeta_template) = (106, 21, 377, 21, 1317).
Proof. reflexivity. Qed.

Example repo_name_of_sample : repo_name "pizza-orderer" = Some "pizza-orderer-skill".
Proof. reflexivity. Qed.

Example makedirs_refuses_existing_leaf :
  makedirs (path interrupted_skill) resumed_world =
  Raise (FileExistsError (path interrupted_skill)) resumed_world.
Proof. reflexivity. Qed.

Example makedirs_creates_ancestors :
  is_directory (final_world (makedirs ["a"; "b"; "c"] sample_world)) ["a"; "b"] = true.
Proof. reflexivity. Qed.

Example write_needs_the_directory :
  write_file (join_path (path sample_skill) "README.md") "text" sample_world =
  Raise (FileNotFoundError (join_path (path sample_skill) "README.md")) sample_world.
Proof. reflexivity. Qed.

Example sample_run_leaves_all_entries :
  let w := final_world (initialize_template sample_skill None sample_world) in
  map (fun e : entry => exists_in w (join_path (path sample_skill) e.1))
      (skill_template sample_skill)
  = [true; true; true; true; true; true; true; true].
Proof. vm_compute. reflexivity. Qed.


(** ** Path lookup *)

Lemma stat_snoc (m : gmap pathname node) (p : pathname) (c : string) :
  c ≠ EmptyString → stat m (p ++ [c]) = m !! (p ++ [c]).
Proof.
  intros Hc. unfold stat. rewrite last_snoc.
  destruct c; [done|]. unfold node_at. by destruct p.
Qed.

Lemma stat_trailing_slash (m : gmap pathname node) (p : pathname) :
  stat m (p ++ [EmptyString]) =
  match node_at m p with
  | Some n => if is_dir_node n then Some n else None
  | None => None
  end.
Proof. unfold stat. by rewrite last_snoc, removelast_last. Qed.

Lemma exists_trailing_slash (w : world) (p : pathname) :
  exists_in w (join_path p EmptyString) =
  match node_at (fs w) p with Some n => is_dir_node n | None => false end.
Proof.
  unfold exists_in, join_path. rewrite stat_trailing_slash.
  destruct (node_at (fs w) p) as [n|]; [|done]. by destruct (is_dir_node n).
Qed.

Lemma path_last (s : CreateAction) : last (path s) = Some (name s +:+ "-skill").
Proof. unfold path, join_path. apply last_snoc. Qed.

Lemma append_nonempty (a b : string) : b ≠ EmptyString → a +:+ b ≠ EmptyString.
Proof. destruct a; simpl; [done|]. intros _. discriminate. Qed.

Lemma stat_path (s : CreateAction) (m : gmap pathname node) :
  stat m (path s) = m !! path s.
Proof. unfold path, join_path. apply stat_snoc, append_nonempty. discriminate. Qed.

Lemma node_at_path (s : CreateAction) (m : gmap pathname node) :
  node_at m (path s) = m !! path s.
Proof. unfold path, join_path, node_at. by destruct (skills_dir s). Qed.

(** ** Commands that only add to the file system

    [grows w w'] : every node of [w] is still there in [w'] with the
    same kind, and the [atexit] registry and the closure counter are
    untouched. Every handler of the template stays within it, whether
    it returns or raises. *)

Lemma grows_refl (w : world) : grows w w.
Proof. split; [|done..]. intros p n Hn. eauto. Qed.

Lemma grows_trans (w1 w2 w3 : world) : grows w1 w2 → grows w2 w3 → grows w1 w3.
Proof.
  intros [H1 A1 C1] [H2 A2 C2]. split; [|congruence..].
  intros p n Hn. destruct (H1 _ _ Hn) as (n' & Hn' & K1).
  destruct (H2 _ _ Hn') as (n'' & Hn'' & K2). exists n''. split; [done|congruence].
Qed.

Lemma keeps_nodes_stat (m m' : gmap pathname node) (p : pathname) (n : node) :
  keeps_nodes m m' → stat m p = Some n →
  ∃ n', stat m' p = Some n' ∧ is_dir_node n' = is_dir_node n.
Proof.
  intros Hk. unfold stat. destruct (last p) as [[|a c]|]; [|by apply Hk..].
  destruct (node_at m (removelast p)) as [k|] eqn:E; [|done].
  destruct (is_dir_node k) eqn:Ek; [|done]. intros [= <-].
  destruct (Hk _ _ E) as (k' & -> & Hk'). exists k'. rewrite Hk', Ek. split; congruence.
Qed.

Lemma grows_exists (w w' : world) (p : pathname) :
  grows w w' → exists_in w p = true → exists_in w' p = true.
Proof.
  intros [Hk _ _]. unfold exists_in. destruct (stat (fs w) p) as [n|] eqn:E; [|done].
  destruct (keeps_nodes_stat _ _ _ _ Hk E) as (n' & -> & _). done.
Qed.

Lemma grows_is_directory (w w' : world) (p : pathname) :
  grows w w' → is_directory w p = true → is_directory w' p = true.
Proof.
  intros [Hk _ _]. unfold is_directory. destruct (stat (fs w) p) as [n|] eqn:E; [|done].
  destruct (keeps_nodes_stat _ _ _ _ Hk E) as (n' & -> & ->). done.
Qed.

Lemma keeps_nodes_insert (m : gmap pathname node) (p : pathname) (n : node) :
  p ≠ [] →
  (∀ k, m !! p = Some k → is_dir_node n = is_dir_node k) →
  keeps_nodes m (<[p := n]> m).
Proof.
  intros Hp Hkind q k Hq. destruct q as [|c q].
  { injection Hq as <-. by exists Dir. }
  simpl in *. destruct (decide (p = c :: q)) as [->|Hne].
  - rewrite lookup_insert_eq. exists n. split; [done|]. by apply Hkind.
  - rewrite lookup_insert_ne by done. eauto.
Qed.

Lemma frame_ret {A} (a : A) : frame (ret a).
Proof. intros w. apply grows_refl. Qed.

Lemma frame_raise {A} (e : exn) : frame (@raise A e).
Proof. intros w. apply grows_refl. Qed.

Lemma frame_bind {A B} (c : cmd A) (k : A → cmd B) :
  frame c → (∀ a, frame (k a)) → frame (bind c k).
Proof.
  intros Hc Hk w. unfold bind. specialize (Hc w).
  destruct (c w) as [a w'|e w']; simpl in *; [|done].
  eapply grows_trans; [done|apply Hk].
Qed.

Lemma frame_try_except {A} (c : cmd A) (catches : exn → bool) (handler : exn → cmd A) :
  frame c → (∀ e, frame (handler e)) → frame (try_except c catches handler).
Proof.
  intros Hc Hh w. unfold try_except. specialize (Hc w).
  destruct (c w) as [a w'|e w']; simpl in *; [done|].
  destruct (catches e); [|done]. eapply grows_trans; [done|apply Hh].
Qed.

Lemma frame_if {A} (b : bool) (c1 c2 : cmd A) :
  frame c1 → frame c2 → frame (if b then c1 else c2).
Proof. by destruct b. Qed.

Lemma frame_path_exists (p : pathname) : frame (path_exists p).
Proof. intros w. apply grows_refl. Qed.

Lemma frame_isdir (p : pathname) : frame (isdir p).
Proof. intros w. apply grows_refl. Qed.

Lemma frame_ask {A} (q : prompt A) : frame (ask q).
Proof. destruct q; [apply frame_ret|apply frame_raise]. Qed.

Lemma frame_format_or_raise tpl args kwargs : frame (format_or_raise tpl args kwargs).
Proof.
  unfold format_or_raise. destruct (format tpl args kwargs);
    [apply frame_ret|apply frame_raise].
Qed.

Lemma grows_set_fs (w : world) (f : gmap pathname node → gmap pathname node) :
  keeps_nodes (fs w) (f (fs w)) → grows w (set_fs f w).
Proof. intros H. by split. Qed.

Lemma node_at_nonroot (m : gmap pathname node) (p : pathname) :
  p ≠ [] → node_at m p = m !! p.
Proof. by destruct p. Qed.

Lemma node_at_None (m : gmap pathname node) (p : pathname) :
  node_at m p = None → p ≠ [] ∧ m !! p = None.
Proof. by destruct p. Qed.

Lemma frame_mkdir (p : pathname) : frame (mkdir p).
Proof.
  intros w. unfold mkdir, parent_check.
  destruct (node_at (fs w) p) as [n|] eqn:E; [apply grows_refl|].
  apply node_at_None in E as [Hp E].
  destruct (node_at (fs w) (removelast p)) as [[]|]; try apply grows_refl;
    apply grows_set_fs, keeps_nodes_insert; try done; by rewrite E.
Qed.

Lemma frame_write_file (p : pathname) (text : string) : frame (write_file p text).
Proof.
  intros w. unfold write_file, parent_check.
  destruct (last p) as [[|a c]|]; try apply grows_refl;
    (destruct (node_at (fs w) p) as [[]|] eqn:E; try apply grows_refl;
     destruct (node_at (fs w) (removelast p)) as [[]|]; try apply grows_refl;
     (assert (p ≠ []) by (by intros ->);
      apply grows_set_fs, keeps_nodes_insert; [done|];
      rewrite node_at_nonroot in E by done; rewrite E; by intros k [= <-])).
Qed.

Lemma frame_makedirs_rev (rname : list string) : frame (makedirs_rev rname).
Proof.
  induction rname as [|c rhead IH]; simpl; [apply frame_mkdir|].
  apply frame_bind; [apply frame_path_exists|]. intros b.
  apply frame_bind; [|intros _; apply frame_mkdir].
  apply frame_if; [|apply frame_ret].
  apply frame_try_except; [done|]. intros _. apply frame_ret.
Qed.

Lemma frame_makedirs (p : pathname) : frame (makedirs p).
Proof. apply frame_makedirs_rev. Qed.

Lemma frame_git_init (working_dir : pathname) : frame (git_init working_dir).
Proof.
  unfold git_init. apply frame_bind; [apply frame_isdir|]. intros b.
  destruct b; simpl; [|apply frame_raise]. intros w.
  assert (git_dir working_dir ≠ []) as Hne.
  { unfold git_dir, join_path. by destruct working_dir. }
  destruct (node_at (fs w) (git_dir working_dir)) as [[]|] eqn:E; simpl;
    try apply grows_refl; rewrite node_at_nonroot in E by done;
    apply grows_set_fs, keeps_nodes_insert; try done; rewrite E; by intros k [= <-].
Qed.

Create HintDb frame.
#[local] Hint Resolve frame_ret frame_raise frame_path_exists frame_isdir frame_ask
  frame_format_or_raise frame_mkdir frame_write_file frame_makedirs frame_git_init
  : frame.

Ltac frame_step :=
  first [ solve [eauto with frame]
        | apply frame_bind; [|intros ?]
        | apply frame_if ].

Lemma frame_format_each tpl items : frame (format_each tpl items).
Proof. induction items; simpl; repeat frame_step. Qed.
#[local] Hint Resolve frame_format_each : frame.

Lemma frame_lang s : frame (lang s).
Proof. unfold lang. repeat frame_step. Qed.

Lemma frame_readme s : frame (readme s).
Proof. unfold readme, short_description, long_description, examples, author. repeat frame_step. Qed.

Lemma frame_init_file s : frame (init_file s).
Proof. unfold init_file. repeat frame_step. Qed.

Lemma frame_settingsmeta s : frame (settingsmeta s).
Proof. unfold settingsmeta. repeat frame_step. Qed.

Lemma frame_add_vocab s : frame (add_vocab s).
Proof. unfold add_vocab. pose proof (frame_lang s). repeat frame_step. Qed.

Lemma frame_add_dialog s : frame (add_dialog s).
Proof. unfold add_dialog. pose proof (frame_lang s). repeat frame_step. Qed.

Lemma frame_skill_template s : Forall (fun e : entry => frame e.2) (skill_template s).
Proof.
  pose proof (frame_readme s). pose proof (frame_init_file s).
  pose proof (frame_settingsmeta s). pose proof (frame_add_vocab s).
  pose proof (frame_add_dialog s).
  unfold skill_template.
  repeat (apply Forall_cons_2; [simpl|]); [..|apply Forall_nil_2]; repeat frame_step.
Qed.

Lemma frame_run_entry dir files (e : entry) : frame e.2 → frame (run_entry dir files e).
Proof.
  intros He. unfold run_entry. apply frame_if; [eauto with frame|].
  apply frame_bind; [eauto with frame|]. intros b. apply frame_if; [|eauto with frame].
  apply frame_bind; [done|]. intros [|text]; repeat frame_step.
Qed.

Lemma frame_for_each {A} (l : list A) (body : A → cmd unit) :
  Forall (fun x => frame (body x)) l → frame (for_each l body).
Proof.
  induction 1; simpl; [apply frame_ret|]. apply frame_bind; [done|]. by intros _.
Qed.

Lemma frame_entries dir files (template : list entry) :
  Forall (fun e : entry => frame e.2) template →
  frame (for_each template (run_entry dir files)).
Proof.
  intros H. apply frame_for_each. eapply Forall_impl; [done|].
  intros e He. by apply frame_run_entry.
Qed.

(** ** One iteration of the loop *)

Lemma run_entry_not_selected dir files (e : entry) w :
  selected files e = false → run_entry dir files e w = Return tt w.
Proof.
  unfold selected, run_entry. intros H. apply negb_false_iff in H. by rewrite H.
Qed.

Lemma run_entry_skips dir files (e : entry) w :
  exists_in w (join_path dir e.1) = true → run_entry dir files e w = Return tt w.
Proof.
  intros H. unfold run_entry. destruct (truthy files && negb (member e.1 files)); [done|].
  unfold bind, path_exists. by rewrite H.
Qed.

Lemma run_entry_selected dir files (e : entry) w :
  selected files e = true → run_entry dir files e w = run_entry dir None e w.
Proof.
  unfold selected, run_entry. intros H. apply negb_true_iff in H. by rewrite H.
Qed.

Lemma selected_None (e : entry) : selected None e = true.
Proof. done. Qed.

Lemma selected_empty (e : entry) : selected (Some ∅) e = true.
Proof. unfold selected, truthy. by rewrite bool_decide_eq_true_2. Qed.

Lemma selected_nonempty (fset : gset string) (e : entry) :
  fset ≠ ∅ → selected (Some fset) e = bool_decide (e.1 ∈ fset).
Proof.
  intros H. unfold selected, truthy, member. rewrite bool_decide_eq_false_2 by done.
  simpl. apply negb_involutive.
Qed.

Lemma for_each_selected dir files (template : list entry) w :
  for_each template (run_entry dir files) w =
  for_each (List.filter (selected files) template) (run_entry dir None) w.
Proof.
  revert w. induction template as [|e rest IH]; intros w; [done|]. simpl.
  destruct (selected files e) eqn:E; simpl; unfold bind.
  - rewrite run_entry_selected by done.
    destruct (run_entry dir None e w); [apply IH|done].
  - rewrite run_entry_not_selected by done. apply IH.
Qed.

Lemma instantiate_selected dir (template : list entry) files w :
  instantiate dir template files w =
  instantiate dir (List.filter (selected files) template) None w.
Proof.
  unfold instantiate, bind.
  destruct (new_cleanup dir w) as [f w1|]; [|done].
  destruct (isdir dir w1) as [b w2|]; [|done].
  destruct ((if negb b then atexit_register f else ret tt) w2) as [u w3|]; [|done].
  by rewrite for_each_selected.
Qed.

Lemma filter_all {A} (f : A → bool) (l : list A) :
  (∀ x, f x = true) → List.filter f l = l.
Proof. intros H. induction l as [|x l IH]; simpl; [done|]. by rewrite H, IH. Qed.

(** ** The shape of a run of [instantiate] *)

Lemma instantiate_unfold dir (template : list entry) files w :
  instantiate dir template files w =
  (for_each template (run_entry dir files) ;; atexit_unregister (cleanup_of dir w))
    (loop_start dir w).
Proof.
  unfold instantiate, bind, new_cleanup, isdir, loop_start, is_directory. simpl.
  by destruct (stat (fs w) dir) as [[]|].
Qed.

Lemma instantiate_raise dir (template : list entry) files w e w' :
  instantiate dir template files w = Raise e w' ↔
  for_each template (run_entry dir files) (loop_start dir w) = Raise e w'.
Proof.
  rewrite instantiate_unfold. unfold bind.
  destruct (for_each template (run_entry dir files) (loop_start dir w)); [|done].
  split; intros H; discriminate H.
Qed.

Lemma instantiate_return dir (template : list entry) files w w' :
  instantiate dir template files w = Return tt w' ↔
  ∃ w1, for_each template (run_entry dir files) (loop_start dir w) = Return tt w1
        ∧ w' = {| fs := fs w1;
                  atexit := filter (fun g => g.1 ≠ closures w) (atexit w1);
                  closures := closures w1 |}.
Proof.
  rewrite instantiate_unfold. unfold bind.
  destruct (for_each template (run_entry dir files) (loop_start dir w)) as [[] w1|].
  - unfold atexit_unregister. simpl. split.
    + intros [= <-]. by exists w1.
    + intros (w2 & [= <-] & ->). done.
  - split; [done|]. by intros (w2 & H & _).
Qed.

(** ** [rmtree] and interpreter exit *)

Lemma plain_path (s : CreateAction) : plain (path s).
Proof. intros m. apply stat_path. Qed.

Lemma rmtree_fs (p : pathname) (w : world) :
  fs (final_world (rmtree p w)) = fs w ∨
  (is_directory w p = true ∧
   fs (final_world (rmtree p w)) = filter (fun kv => ¬ p `prefix_of` kv.1) (fs w)).
Proof.
  unfold rmtree, is_directory. destruct (stat (fs w) p) as [[]|]; simpl; auto.
Qed.

Lemma rmtree_registry (p : pathname) (w : world) :
  atexit (final_world (rmtree p w)) = atexit w.
Proof. unfold rmtree. by destruct (stat (fs w) p) as [[]|]. Qed.

Lemma rmtree_lookup_Some (p q : pathname) (w : world) (n : node) :
  fs (final_world (rmtree p w)) !! q = Some n → fs w !! q = Some n.
Proof.
  destruct (rmtree_fs p w) as [->|[_ ->]]; [done|].
  intros H. by apply map_lookup_filter_Some in H as [H _].
Qed.

Lemma rmtree_lookup_other (p q : pathname) (w : world) :
  ¬ p `prefix_of` q → fs (final_world (rmtree p w)) !! q = fs w !! q.
Proof.
  intros Hq. destruct (rmtree_fs p w) as [->|[_ ->]]; [done|].
  destruct (fs w !! q) as [n|] eqn:E.
  - by apply map_lookup_filter_Some.
  - apply map_lookup_filter_None. left. done.
Qed.

Lemma rmtree_removes (p : pathname) (w : world) :
  plain p → is_directory (final_world (rmtree p w)) p = false.
Proof.
  intros Hp. unfold rmtree, is_directory.
  destruct (stat (fs w) p) as [[]|] eqn:Es; simpl; rewrite ?Es; try done;
    rewrite Hp, (proj2 (map_lookup_filter_None _ _ _)); try done;
    right; intros n _ Hn; by apply Hn.
Qed.

Lemma run_callbacks_lookup_Some (l : list (nat * pathname)) (w : world) q n :
  fs (run_callbacks l w) !! q = Some n → fs w !! q = Some n.
Proof.
  revert w. induction l as [|[i p] l IH]; intros w; simpl; [done|].
  intros H. apply IH in H. by apply rmtree_lookup_Some in H.
Qed.

Lemma run_callbacks_removes (l : list (nat * pathname)) (w : world) i p :
  plain p → (i, p) ∈ l → is_directory (run_callbacks l w) p = false.
Proof.
  intros Hp. revert w. induction l as [|[j q] l IH]; intros w Hin; simpl.
  { by apply elem_of_nil in Hin. }
  apply elem_of_cons in Hin as [[= <- <-]|Hin]; [|by apply IH].
  pose proof (rmtree_removes p w Hp) as Hgone.
  unfold is_directory in *. rewrite Hp in *.
  destruct (fs (run_callbacks l (final_world (rmtree p w))) !! p) as [n|] eqn:E; [|done].
  apply run_callbacks_lookup_Some in E. by rewrite E in Hgone.
Qed.

Lemma run_callbacks_lookup_other (l : list (nat * pathname)) (w : world) q :
  Forall (fun g => ¬ g.2 `prefix_of` q) l →
  fs (run_callbacks l w) !! q = fs w !! q.
Proof.
  intros H. revert w. induction H as [|[i p] l Hp _ IH]; intros w; simpl; [done|].
  rewrite IH. by apply rmtree_lookup_other.
Qed.

Lemma run_exitfuncs_removes (w : world) i p :
  plain p → (i, p) ∈ atexit w → is_directory (run_exitfuncs w) p = false.
Proof.
  intros Hp Hin. unfold run_exitfuncs. eapply run_callbacks_removes; [done|].
  by apply elem_of_reverse.
Qed.

Lemma run_exitfuncs_keeps (w : world) p :
  plain p → Forall (fun g => ¬ g.2 `prefix_of` p) (atexit w) →
  is_directory (run_exitfuncs w) p = is_directory w p.
Proof.
  intros Hp H. unfold run_exitfuncs, is_directory. rewrite !Hp.
  rewrite run_callbacks_lookup_other; [done|]. by apply Forall_reverse.
Qed.

(** ** Failure safety of [initialize_template] *)

(** C1. When the target directory does not exist at the start, the loop
    over the entries starts with the cleanup handler registered; a run
    that an exception ends (in an action or in a write) leaves it
    registered, so that at interpreter exit the directory is removed and
    does not exist afterwards; only a run that went through every entry
    unregisters it. *)
Theorem cleanup_registered_until_completion
    (s : CreateAction) (files : option (gset string)) (w : world) :
  is_directory w (path s) = false →
  let cleanup := cleanup_of (path s) w in
  cleanup ∈ atexit (loop_start (path s) w)
  ∧ initialize_template s files w =
      (for_each (skill_template s) (run_entry (path s) files) ;;
       atexit_unregister cleanup) (loop_start (path s) w)
  ∧ match initialize_template s files w with
    | Raise _ w' =>
        cleanup ∈ atexit w'
        ∧ is_directory (run_exitfuncs w') (path s) = false
        ∧ is_directory (run_process (initialize_template s files) w) (path s) = false
    | Return _ w' => cleanup ∉ atexit w'
    end.
Proof.
  intros Hdir cleanup.
  assert (cleanup ∈ atexit (loop_start (path s) w)) as Hreg.
  { unfold loop_start. simpl. rewrite Hdir. set_solver. }
  split; [done|]. split; [apply instantiate_unfold|].
  unfold run_process.
  destruct (initialize_template s files w) as [[] w'|e w'] eqn:E.
  - apply instantiate_return in E as (w1 & _ & ->). simpl.
    intros Hin. apply list_elem_of_filter in Hin as [Hne _]. by apply Hne.
  - apply instantiate_raise in E.
    pose proof (frame_entries (path s) files _ (frame_skill_template s) (loop_start (path s) w)) as G.
    rewrite E in G. destruct G as [_ Ha _]. simpl in Ha.
    assert (cleanup ∈ atexit w') as Hin by (by rewrite Ha).
    split; [done|].
    assert (is_directory (run_exitfuncs w') (path s) = false) as Hgone.
    { eapply run_exitfuncs_removes; [apply plain_path|]. exact Hin. }
    done.
Qed.

Lemma cleanup_registered_until_completion_witness :
  is_directory sample_world (path interrupted_skill) = false
  ∧ returns (initialize_template interrupted_skill None sample_world) = false
  ∧ is_directory (run_process (initialize_template interrupted_skill None) sample_world)
      (path interrupted_skill) = false.
Proof.
  split; [reflexivity|].
  assert (returns (initialize_template interrupted_skill None sample_world) = false) as R
    by (vm_compute; reflexivity).
  split; [exact R|].
  destruct (cleanup_registered_until_completion interrupted_skill None sample_world eq_refl)
    as (_ & _ & H).
  destruct (initialize_template interrupted_skill None sample_world) eqn:E.
  - discriminate R.
  - apply H.
Defined.

(** C4. When the target directory is there at the start, the run
    registers nothing: whatever ends it, the registry holds no callback
    that was not there before and the directory is still in place; and
    unless an earlier registration covers it, it is still in place after
    interpreter exit. *)
Theorem preexisting_directory_kept
    (s : CreateAction) (files : option (gset string)) (w : world) :
  is_directory w (path s) = true →
  let w' := final_world (initialize_template s files w) in
  atexit (loop_start (path s) w) = atexit w
  ∧ (∀ g, g ∈ atexit w' → g ∈ atexit w)
  ∧ is_directory w' (path s) = true
  ∧ (Forall (fun g => ¬ g.2 `prefix_of` path s) (atexit w) →
     is_directory (run_process (initialize_template s files) w) (path s) = true).
Proof.
  intros Hdir w'.
  assert (atexit (loop_start (path s) w) = atexit w) as Hstart.
  { unfold loop_start. simpl. by rewrite Hdir. }
  pose proof (frame_entries (path s) files _ (frame_skill_template s) (loop_start (path s) w)) as G.
  assert (is_directory (loop_start (path s) w) (path s) = true) as Hdir0 by done.
  assert ((∀ g, g ∈ atexit w' → g ∈ atexit w) ∧ is_directory w' (path s) = true) as [Hsub Hkept].
  { subst w'. destruct (initialize_template s files w) as [[] w1|e w1] eqn:E.
    - apply instantiate_return in E as (w2 & E & ->). rewrite E in G.
      pose proof (grows_atexit _ _ G) as Ha. rewrite Hstart in Ha.
      split.
      + intros g Hg. apply list_elem_of_filter in Hg as [_ Hg]. by rewrite <- Ha.
      + by apply (grows_is_directory _ _ _ G) in Hdir0.
    - apply instantiate_raise in E. rewrite E in G.
      pose proof (grows_atexit _ _ G) as Ha. rewrite Hstart in Ha.
      split.
      + intros g Hg. by rewrite <- Ha.
      + by apply (grows_is_directory _ _ _ G). }
  split; [done|]. split; [done|]. split; [done|].
  intros Hfree. unfold run_process. fold w'.
  rewrite run_exitfuncs_keeps; [done|apply plain_path|].
  apply Forall_forall. intros g Hg. rewrite Forall_forall in Hfree. by apply Hfree, Hsub.
Qed.

Lemma preexisting_directory_kept_witness :
  is_directory resumed_world (path interrupted_skill) = true
  ∧ returns (initialize_template interrupted_skill None resumed_world) = false
  ∧ is_directory (run_process (initialize_template interrupted_skill None) resumed_world)
      (path interrupted_skill) = true.
Proof.
  split; [reflexivity|]. split; [vm_compute; reflexivity|].
  destruct (preexisting_directory_kept interrupted_skill None resumed_world eq_refl)
    as (_ & _ & _ & H).
  apply H. apply Forall_nil_2.
Defined.

(** ** What a successful handler leaves behind *)

Lemma exists_in_fs (w w' : world) (p : pathname) :
  fs w = fs w' → exists_in w p = exists_in w' p.
Proof. unfold exists_in. by intros ->. Qed.

Lemma mkdir_return (p : pathname) (w w' : world) :
  mkdir p w = Return tt w' →
  p ≠ [] ∧ fs w' = <[p := Dir]> (fs w)
  ∧ ∃ n, node_at (fs w) (removelast p) = Some n ∧ is_dir_node n = true.
Proof.
  unfold mkdir, parent_check. destruct (node_at (fs w) p) eqn:E; [done|].
  apply node_at_None in E as [Hp _].
  destruct (node_at (fs w) (removelast p)) as [[]|]; try done;
    intros [= <-]; eauto.
Qed.

Lemma removelast_ne {A} (p : list A) : p ≠ [] → removelast p ≠ p.
Proof.
  intros Hp E. apply (f_equal List.length) in E.
  destruct (exists_last Hp) as (q & a & ->).
  rewrite removelast_last, length_app in E. simpl in E. lia.
Qed.

Lemma mkdir_creates (p : pathname) (w w' : world) :
  mkdir p w = Return tt w' →
  node_at (fs w') p = Some Dir
  ∧ ∃ n, node_at (fs w') (removelast p) = Some n ∧ is_dir_node n = true.
Proof.
  intros H. apply mkdir_return in H as (Hp & -> & n & Hn & Hk). split.
  - rewrite node_at_nonroot by done. apply lookup_insert_eq.
  - exists n. split; [|done]. destruct (removelast p) as [|c q] eqn:E; [done|].
    simpl in *. rewrite lookup_insert_ne; [done|]. rewrite <- E. by apply not_eq_sym, removelast_ne.
Qed.

Lemma makedirs_return (p : pathname) (w w' : world) :
  makedirs p w = Return tt w' → ∃ w0, mkdir p w0 = Return tt w'.
Proof.
  unfold makedirs. destruct (reverse p) as [|c rhead] eqn:E.
  - assert (p = []) as -> by (by rewrite <- (reverse_involutive p), E). simpl. eauto.
  - simpl. rewrite <- E, reverse_involutive. unfold bind.
    destruct (path_exists (reverse rhead) w) as [b w1|]; [|done].
    destruct ((if negb b then _ else ret tt) w1) as [u w2|]; [|done].
    destruct (mkdir p w2) as [[] w3|] eqn:Em; [|done]. intros [= <-]. eauto.
Qed.

Lemma write_file_creates (p : pathname) (text : string) (w w' : world) :
  write_file p text w = Return tt w' → exists_in w' p = true.
Proof.
  unfold write_file, parent_check, exists_in, stat.
  destruct (last p) as [[|a c]|] eqn:El; try done;
    (destruct (node_at (fs w) p) as [[]|] eqn:E; try done;
     (assert (p ≠ []) by (intros ->; done));
     destruct (node_at (fs w) (removelast p)) as [[]|]; try done;
     intros [= <-]; simpl; rewrite node_at_nonroot by done;
     by rewrite lookup_insert_eq).
Qed.

Lemma creates_text dir (file : string) (c : cmd string) :
  creates dir (file, let! text := c in ret (PStr text)).
Proof.
  intros w w'. simpl. unfold bind, ret. by destruct (c w).
Qed.

Lemma creates_root (s : CreateAction) :
  creates (path s) (EmptyString, makedirs (path s) ;; ret PNone).
Proof.
  intros w w'. simpl. unfold bind.
  destruct (makedirs (path s) w) as [[] w1|] eqn:E; [|done]. intros [= <-].
  apply makedirs_return in E as [w0 E]. apply mkdir_creates in E as [E _].
  rewrite exists_trailing_slash. by rewrite E.
Qed.

Lemma creates_subdir (s : CreateAction) (sub : string) (l : cmd string)
    (text : string) (lf : string → string) :
  sub ≠ EmptyString → frame l →
  creates (path s)
    (sub, let! x := l in
          makedirs (join_path (join_path (path s) sub) x) ;;
          write_file (join_path (join_path (join_path (path s) sub) x) (lf x)) text ;;
          ret PNone).
Proof.
  intros Hsub Hl w w'. simpl. unfold bind.
  destruct (l w) as [x w1|]; [|done].
  destruct (makedirs _ w1) as [[] w2|] eqn:E; [|done].
  destruct (write_file _ text w2) as [[] w3|] eqn:Ew; [|done]. intros [= <-].
  apply makedirs_return in E as [w0 E]. apply mkdir_creates in E as [_ (n & Hn & Hk)].
  unfold join_path in Hn. rewrite removelast_last in Hn.
  match type of Ew with
  | write_file ?p _ _ = _ => pose proof (frame_write_file p text w2) as G
  end.
  rewrite Ew in G.
  eapply grows_exists; [exact G|].
  unfold exists_in, join_path. rewrite stat_snoc by done.
  rewrite node_at_nonroot in Hn by (by destruct (path s)). by rewrite Hn.
Qed.

Lemma creates_skill_template (s : CreateAction) :
  Forall (creates (path s)) (skill_template s).
Proof.
  unfold skill_template.
  repeat (apply Forall_cons_2; [|]); [..|apply Forall_nil_2];
    try apply creates_text; try apply creates_root.
  - apply (creates_subdir s "vocab" (lang s) _ (fun _ => _));
      [done|apply frame_lang].
  - apply (creates_subdir s "dialog" (lang s) _ (fun _ => _));
      [done|apply frame_lang].
  - intros w w'. simpl. done.
Qed.

Lemma run_entry_return_exists dir files (e : entry) (w w' : world) :
  creates dir e → selected files e = true →
  run_entry dir files e w = Return tt w' →
  exists_in w' (join_path dir e.1) = true.
Proof.
  intros Hc Hsel. rewrite (run_entry_selected _ _ _ _ Hsel).
  unfold run_entry. simpl. unfold bind, path_exists.
  destruct (exists_in w (join_path dir e.1)) eqn:Ex; simpl.
  { by intros [= <-]. }
  destruct (e.2 w) as [[|text] w1|] eqn:Eh; [| |done].
  - intros [= <-]. by eapply Hc.
  - destruct (exists_in w1 (join_path dir e.1)) eqn:Ex1; simpl.
    + by intros [= <-].
    + apply write_file_creates.
Qed.

Lemma entries_exist_after dir files (template : list entry) (w w' : world) :
  Forall (fun e : entry => frame e.2) template →
  Forall (creates dir) template →
  for_each template (run_entry dir files) w = Return tt w' →
  Forall (fun e : entry => selected files e = true →
                           exists_in w' (join_path dir e.1) = true) template.
Proof.
  intros Hf Hc. revert w. induction template as [|e rest IH]; intros w; [constructor|].
  apply Forall_cons in Hf as [Hfe Hf]. apply Forall_cons in Hc as [Hce Hc].
  simpl. unfold bind. destruct (run_entry dir files e w) as [[] w1|] eqn:E; [|done].
  intros Hrest. apply Forall_cons_2; [|by eapply IH].
  intros Hsel. pose proof (frame_entries dir files rest Hf w1) as G. rewrite Hrest in G.
  eapply grows_exists; [exact G|]. by eapply run_entry_return_exists.
Qed.

Lemma entries_all_skipped dir files (template : list entry) (w : world) :
  Forall (fun e : entry => selected files e = true →
                           exists_in w (join_path dir e.1) = true) template →
  for_each template (run_entry dir files) w = Return tt w.
Proof.
  induction 1 as [|e rest He _ IH]; [done|]. simpl. unfold bind.
  destruct (selected files e) eqn:Hsel.
  - by rewrite run_entry_skips by auto.
  - by rewrite run_entry_not_selected.
Qed.

(** ** Idempotence *)

(** C2. An entry whose path is already there is skipped: no handler
    runs, the state is untouched and nothing is raised. Hence a second
    run after a run that went through finds every entry in place: it
    returns, and the file system is what the first run left. *)
Theorem instantiation_idempotent
    (s : CreateAction) (files : option (gset string)) (w w1 : world) :
  (∀ (e : entry) (w0 : world),
      exists_in w0 (join_path (path s) e.1) = true →
      run_entry (path s) files e w0 = Return tt w0)
  ∧ (initialize_template s files w = Return tt w1 →
     ∃ w2, initialize_template s files w1 = Return tt w2 ∧ fs w2 = fs w1).
Proof.
  split; [intros e w0; apply run_entry_skips|].
  intros H. apply instantiate_return in H as (w' & Hrun & ->).
  apply entries_exist_after in Hrun;
    [|apply frame_skill_template|apply creates_skill_template].
  eexists. split.
  - apply instantiate_return. eexists. split; [|reflexivity].
    apply entries_all_skipped. eapply Forall_impl; [exact Hrun|].
    intros e He Hsel. rewrite <- (He Hsel). by apply exists_in_fs.
  - done.
Qed.

Lemma instantiation_idempotent_witness :
  ∃ w1 w2,
    initialize_template sample_skill None sample_world = Return tt w1
    ∧ initialize_template sample_skill None w1 = Return tt w2
    ∧ fs w2 = fs w1.
Proof.
  assert (returns (initialize_template sample_skill None sample_world) = true) as R
    by (vm_compute; reflexivity).
  destruct (initialize_template sample_skill None sample_world) as [[] w1|e w1] eqn:E.
  - exists w1.
    destruct (instantiation_idempotent sample_skill None sample_world w1) as [_ H].
    destruct (H E) as (w2 & H2 & Hfs). exists w2. auto.
  - discriminate R.
Defined.

(** ** The guard around the write *)

(** C3. For a selected entry whose path is absent and whose action
    returns text, the path is looked up again in the state the action
    left: if it is there now, that state is the result and nothing is
    written; otherwise the text is written to the path of the entry. *)
Theorem text_written_only_if_still_absent
    (dir : pathname) (files : option (gset string)) (e : entry)
    (w w1 : world) (text : string) :
  selected files e = true →
  exists_in w (join_path dir e.1) = false →
  e.2 w = Return (PStr text) w1 →
  run_entry dir files e w =
    if exists_in w1 (join_path dir e.1) then Return tt w1
    else write_file (join_path dir e.1) text w1.
Proof.
  intros Hsel Habs Hact. rewrite (run_entry_selected _ _ _ _ Hsel).
  unfold run_entry. simpl. unfold bind, path_exists. rewrite Habs. simpl.
  rewrite Hact. by destruct (exists_in w1 (join_path dir e.1)).
Qed.

Lemma text_written_only_if_still_absent_witness :
  exists_in resumed_world (join_path (path interrupted_skill) ".git") = false
  ∧ exists_in after_git_init (join_path (path interrupted_skill) ".git") = true
  ∧ run_entry (path interrupted_skill) None (git_entry interrupted_skill) resumed_world
    = Return tt after_git_init.
Proof.
  split; [reflexivity|]. split; [reflexivity|].
  rewrite (text_written_only_if_still_absent
             (path interrupted_skill) None (git_entry interrupted_skill)
             resumed_world after_git_init
             "Initialized empty Git repository in /opt/mycroft/skills/siren-alarm-skill/.git/"
             eq_refl eq_refl eq_refl).
  reflexivity.
Defined.

(** ** Selective instantiation *)

(** C10. With a non-empty [files] set the run is the run, without any
    filter, of the template restricted to the entries named in the set;
    the first entry, the one that creates the target directory and whose
    name is the empty string, is not among them unless the set holds the
    empty string. With the empty set the run is the run without a
    filter over the whole template. *)
Theorem filter_restricts_entries
    (s : CreateAction) (fset : gset string) (w : world) :
  fset ≠ ∅ →
  initialize_template s (Some fset) w =
    instantiate (path s)
      (List.filter (fun e : entry => bool_decide (e.1 ∈ fset)) (skill_template s)) None w
  ∧ (EmptyString ∉ fset →
     List.filter (fun e : entry => bool_decide (e.1 ∈ fset)) (skill_template s) =
     List.filter (fun e : entry => bool_decide (e.1 ∈ fset)) (tail (skill_template s)))
  ∧ initialize_template s (Some ∅) w = initialize_template s None w.
Proof.
  intros Hne. split; [|split].
  - unfold initialize_template. rewrite instantiate_selected.
    f_equal. apply filter_ext. intros e. by apply selected_nonempty.
  - intros Hroot. unfold skill_template. simpl.
    by rewrite bool_decide_eq_false_2.
  - unfold initialize_template.
    rewrite instantiate_selected, (instantiate_selected _ _ None).
    by rewrite !filter_all by (apply selected_empty || apply selected_None).
Qed.

Lemma filter_restricts_entries_witness :
  ({["vocab"]} : gset string) ≠ ∅
  ∧ initialize_template sample_skill (Some {["vocab"]}) resumed_world =
    instantiate (path sample_skill) [("vocab", add_vocab sample_skill)] None resumed_world.
Proof.
  assert (({["vocab"]} : gset string) ≠ ∅) as Hne by (by apply non_empty_singleton_L).
  split; [exact Hne|].
  destruct (filter_restricts_entries sample_skill {["vocab"]} resumed_world Hne) as [H _].
  exact H.
Defined.

(** ** The settings file *)

Lemma settingsmeta_template_format (value : string) :
  format settingsmeta_template [] [("capital_desc", value)] =
  Some (settingsmeta_head +:+ value +:+ settingsmeta_tail).
Proof. vm_compute. reflexivity. Qed.

(** *** Commands that leave a given path alone *)

Lemma untouched_ret {A} q (a : A) : untouched q (ret a).
Proof. done. Qed.

Lemma untouched_raise {A} q (e : exn) : untouched q (@raise A e).
Proof. done. Qed.

Lemma untouched_bind {A B} q (c : cmd A) (k : A → cmd B) :
  untouched q c → (∀ a, untouched q (k a)) → untouched q (bind c k).
Proof.
  intros Hc Hk w. unfold bind. specialize (Hc w).
  destruct (c w) as [a w'|e w']; simpl in *; [|done]. by rewrite Hk.
Qed.

Lemma untouched_try_except {A} q (c : cmd A) catches (handler : exn → cmd A) :
  untouched q c → (∀ e, untouched q (handler e)) → untouched q (try_except c catches handler).
Proof.
  intros Hc Hh w. unfold try_except. specialize (Hc w).
  destruct (c w) as [a w'|e w']; simpl in *; [done|].
  destruct (catches e); [|done]. by rewrite Hh.
Qed.

Lemma untouched_if {A} q (b : bool) (c1 c2 : cmd A) :
  untouched q c1 → untouched q c2 → untouched q (if b then c1 else c2).
Proof. by destruct b. Qed.

Lemma untouched_path_exists q p : untouched q (path_exists p).
Proof. done. Qed.

Lemma untouched_isdir q p : untouched q (isdir p).
Proof. done. Qed.

Lemma untouched_ask {A} q (x : prompt A) : untouched q (ask x).
Proof. by destruct x. Qed.

Lemma untouched_format_or_raise q tpl args kwargs :
  untouched q (format_or_raise tpl args kwargs).
Proof. unfold format_or_raise. by destruct (format tpl args kwargs). Qed.

Lemma untouched_mkdir q p : q ≠ p → untouched q (mkdir p).
Proof.
  intros Hq w. unfold mkdir, parent_check.
  destruct (node_at (fs w) p); [done|].
  destruct (node_at (fs w) (removelast p)) as [[]|]; simpl; try done;
    by rewrite lookup_insert_ne.
Qed.

Lemma untouched_write_file q p text : q ≠ p → untouched q (write_file p text).
Proof.
  intros Hq w. unfold write_file, parent_check.
  destruct (last p) as [[|a c]|]; try done;
    (destruct (node_at (fs w) p) as [[]|]; try done;
     destruct (node_at (fs w) (removelast p)) as [[]|]; simpl; try done;
     by rewrite lookup_insert_ne).
Qed.

Lemma untouched_makedirs_rev q (rname : list string) :
  ¬ q `prefix_of` reverse rname → untouched q (makedirs_rev rname).
Proof.
  induction rname as [|c rhead IH]; intros Hq; simpl.
  { apply untouched_mkdir. intros ->. by apply Hq. }
  assert (¬ q `prefix_of` reverse rhead) as Hq'.
  { intros H. apply Hq. rewrite reverse_cons. by apply prefix_app_r. }
  apply untouched_bind; [apply untouched_path_exists|]. intros b.
  apply untouched_bind.
  - apply untouched_if; [|apply untouched_ret].
    apply untouched_try_except; [by apply IH|]. intros _. apply untouched_ret.
  - intros _. apply untouched_mkdir. intros ->. by apply Hq.
Qed.

Lemma untouched_makedirs q p : ¬ q `prefix_of` p → untouched q (makedirs p).
Proof.
  intros Hq. apply untouched_makedirs_rev. by rewrite reverse_involutive.
Qed.

Lemma untouched_git_init q working_dir :
  q ≠ git_dir working_dir → untouched q (git_init working_dir).
Proof.
  intros Hq. unfold git_init. apply untouched_bind; [apply untouched_isdir|].
  intros b. destruct b; simpl; [|apply untouched_raise]. intros w.
  destruct (node_at (fs w) (git_dir working_dir)) as [[]|]; simpl; try done;
    by rewrite lookup_insert_ne.
Qed.

Lemma untouched_format_each q tpl items : untouched q (format_each tpl items).
Proof.
  induction items; simpl; [apply untouched_ret|].
  apply untouched_bind; [apply untouched_format_or_raise|]. intros ?.
  apply untouched_bind; [done|]. intros ?. apply untouched_ret.
Qed.

Lemma untouched_run_entry q dir files (e : entry) :
  untouched q e.2 → q ≠ join_path dir e.1 → untouched q (run_entry dir files e).
Proof.
  intros He Hq. unfold run_entry. apply untouched_if; [apply untouched_ret|].
  apply untouched_bind; [apply untouched_path_exists|]. intros b.
  apply untouched_if; [|apply untouched_ret].
  apply untouched_bind; [done|]. intros [|text]; [apply untouched_ret|].
  apply untouched_bind; [apply untouched_path_exists|]. intros b'.
  apply untouched_if; [by apply untouched_write_file|apply untouched_ret].
Qed.

Lemma untouched_for_each {A} q (l : list A) (body : A → cmd unit) :
  Forall (fun x => untouched q (body x)) l → untouched q (for_each l body).
Proof.
  induction 1; simpl; [apply untouched_ret|]. apply untouched_bind; [done|]. by intros _.
Qed.

Lemma for_each_app_return {A} (l1 l2 : list A) (body : A → cmd unit) (w w' : world) :
  for_each (l1 ++ l2) body w = Return tt w' →
  ∃ w1, for_each l1 body w = Return tt w1 ∧ for_each l2 body w1 = Return tt w'.
Proof.
  revert w. induction l1 as [|x l1 IH]; intros w; simpl; [eauto|].
  unfold bind. destruct (body x w) as [[] w1|]; [|done]. apply IH.
Qed.

Lemma write_file_return (p : pathname) (text : string) (w w' : world) :
  write_file p text w = Return tt w' → fs w' = <[p := File text]> (fs w).
Proof.
  unfold write_file, parent_check.
  destruct (last p) as [[|a c]|]; try done;
    (destruct (node_at (fs w) p) as [[]|]; try done;
     destruct (node_at (fs w) (removelast p)) as [[]|]; try done;
     by intros [= <-]).
Qed.

Lemma not_prefix_sibling (p : pathname) (a b : string) (rest : pathname) :
  a ≠ b → ¬ (p ++ [a]) `prefix_of` (p ++ b :: rest).
Proof.
  intros Hab H. apply prefix_app_inv in H as [k Hk]. simpl in Hk. congruence.
Qed.

Lemma not_prefix_longer (p : pathname) (a : string) : ¬ (p ++ [a]) `prefix_of` p.
Proof.
  intros H. apply prefix_length in H. rewrite length_app in H. simpl in H. lia.
Qed.

Lemma join_path_ne (p : pathname) (a b : string) : a ≠ b → join_path p a ≠ join_path p b.
Proof. intros Hab E. apply app_inj_tail in E as [_ E]. done. Qed.

Lemma join_path_ne_deeper (p : pathname) (a b c d : string) :
  join_path p a ≠ join_path (join_path (join_path p b) c) d.
Proof.
  intros E. apply (f_equal List.length) in E. unfold join_path in E.
  rewrite !length_app in E. simpl in E. lia.
Qed.

Lemma skill_template_split (s : CreateAction) :
  skill_template s = take 6 (skill_template s) ++ [settings_entry s; git_entry s].
Proof. reflexivity. Qed.

Lemma untouched_subdir (s : CreateAction) (sub : string) (lf : string → string) text :
  sub ≠ "settingsmeta.json" →
  untouched (settings_path s)
    (let! x := lang s in
     makedirs (join_path (join_path (path s) sub) x) ;;
     write_file (join_path (join_path (join_path (path s) sub) x) (lf x)) text ;;
     ret PNone).
Proof.
  intros Hsub. apply untouched_bind.
  { unfold lang. apply untouched_bind; [apply untouched_ask|]. intros ?. apply untouched_ret. }
  intros x. apply untouched_bind.
  { apply untouched_makedirs. unfold settings_path, join_path. rewrite <- app_assoc.
    simpl. by apply not_prefix_sibling. }
  intros _. apply untouched_bind; [|intros _; apply untouched_ret].
  apply untouched_write_file, join_path_ne_deeper.
Qed.

Lemma untouched_before_settings (s : CreateAction) (files : option (gset string)) :
  Forall (fun e : entry => untouched (settings_path s) (run_entry (path s) files e))
         (take 6 (skill_template s)).
Proof.
  unfold skill_template. simpl.
  repeat (apply Forall_cons_2; [apply untouched_run_entry; simpl|]); try apply Forall_nil_2;
    try (by apply join_path_ne).
  - apply untouched_bind; [|intros _; apply untouched_ret].
    apply untouched_makedirs, not_prefix_longer.
  - apply untouched_bind; [apply untouched_format_or_raise|]. intros ?. apply untouched_ret.
  - apply untouched_bind; [|intros ?; apply untouched_ret].
    unfold readme, short_description, long_description, examples, author.
    repeat (first [ apply untouched_ask | apply untouched_ret
                  | apply untouched_format_or_raise | apply untouched_format_each
                  | apply untouched_bind; [|intros ?] ]).
  - by apply (untouched_subdir s "vocab" (fun _ => _)).
  - by apply (untouched_subdir s "dialog" (fun _ => _)).
  - apply untouched_ret.
Qed.

Lemma settingsmeta_returns (s : CreateAction) (w : world) :
  settingsmeta s w =
  Return (settingsmeta_head +:+ capitalize (replace "-" " " (name s)) +:+ settingsmeta_tail) w.
Proof.
  unfold settingsmeta, format_or_raise. by rewrite settingsmeta_template_format.
Qed.

Lemma run_entry_text dir (file : string) (c : cmd string) (text : string) (w : world) :
  exists_in w (join_path dir file) = false →
  c w = Return text w →
  run_entry dir None (file, let! t := c in ret (PStr t)) w =
  write_file (join_path dir file) text w.
Proof.
  intros Habs Hc. unfold run_entry, bind, path_exists, ret. cbn [fst snd truthy andb].
  rewrite Habs. cbn [negb]. rewrite Hc. by rewrite Habs.
Qed.

(** C5, as the code has it. The text of [settingsmeta.json] is the
    settings template with its one replacement field filled in, and the
    value filled in is the skill name with its hyphens turned into
    spaces, capitalized (not the description). A run over the whole
    template that finds no such file and goes through leaves exactly
    that text in it. *)
Theorem settingsmeta_file_content (s : CreateAction) (w w' : world) :
  let value := capitalize (replace "-" " " (name s)) in
  let text := settingsmeta_head +:+ value +:+ settingsmeta_tail in
  format settingsmeta_template [] [("capital_desc", value)] = Some text
  ∧ settingsmeta s w = Return text w
  ∧ (exists_in w (settings_path s) = false →
     initialize_template s None w = Return tt w' →
     fs w' !! settings_path s = Some (File text)).
Proof.
  intros value text. split; [apply settingsmeta_template_format|].
  split; [apply settingsmeta_returns|].
  intros Habs H. apply instantiate_return in H as (w1 & Hrun & ->). simpl.
  rewrite skill_template_split in Hrun.
  apply for_each_app_return in Hrun as (w2 & Hbefore & Hrest).
  pose proof (untouched_for_each _ _ _ (untouched_before_settings s None) (loop_start (path s) w)) as U.
  rewrite Hbefore in U. simpl in U.
  assert (exists_in w2 (settings_path s) = false) as Habs2.
  { unfold exists_in, settings_path, join_path in *. rewrite stat_snoc in * by done.
    unfold settings_path, join_path in U. by rewrite U. }
  simpl in Hrest. unfold bind in Hrest.
  destruct (run_entry (path s) None (settings_entry s) w2) as [[] w3|] eqn:E3; [|done].
  destruct (run_entry (path s) None (git_entry s) w3) as [[] w4|] eqn:E4; [|done].
  injection Hrest as <-.
  assert (untouched (settings_path s) (run_entry (path s) None (git_entry s))) as Ugit.
  { apply untouched_run_entry; simpl; [|by apply join_path_ne].
    apply untouched_bind; [|intros ?; apply untouched_ret].
    apply untouched_git_init. by apply join_path_ne. }
  specialize (Ugit w3). rewrite E4 in Ugit. simpl in Ugit. rewrite Ugit.
  unfold settings_entry in E3.
  rewrite (run_entry_text _ _ _ _ _ Habs2 (settingsmeta_returns s w2)) in E3.
  apply write_file_return in E3. rewrite E3. apply lookup_insert_eq.
Qed.

Lemma settingsmeta_file_content_witness :
  exists_in sample_world (settings_path sample_skill) = false
  ∧ ∃ w', initialize_template sample_skill None sample_world = Return tt w'
          ∧ fs w' !! settings_path sample_skill =
            Some (File (settingsmeta_head +:+ "Pizza orderer" +:+ settingsmeta_tail)).
Proof.
  split; [reflexivity|].
  assert (returns (initialize_template sample_skill None sample_world) = true) as R
    by (vm_compute; reflexivity).
  destruct (initialize_template sample_skill None sample_world) as [[] w'|e w'] eqn:E.
  - exists w'. split; [reflexivity|].
    destruct (settingsmeta_file_content sample_skill sample_world w') as (_ & _ & H).
    apply H; [reflexivity|exact E].
  - discriminate R.
Defined.

(** C5, as the claim words it, fails: for a skill named pizza-orderer
    whose description is the sentence about ordering pizzas, the run
    goes through and the value in the file is the name, not the
    capitalized description. *)
Lemma settingsmeta_value_is_not_the_description :
  short_description sample_skill sample_world =
    Return "Orders fresh pizzas from the store" sample_world
  ∧ returns (initialize_template sample_skill None sample_world) = true
  ∧ settings_value
      (fs (final_world (initialize_template sample_skill None sample_world))
         !! settings_path sample_skill) = Some "Pizza orderer"
  ∧ fs (final_world (initialize_template sample_skill None sample_world))
      !! settings_path sample_skill ≠
    Some (File (settingsmeta_head +:+ "Orders fresh pizzas from the store"
                +:+ settingsmeta_tail)).
Proof.
  split; [reflexivity|]. split; [vm_compute; reflexivity|].
  assert (settings_value
            (fs (final_world (initialize_template sample_skill None sample_world))
               !! settings_path sample_skill) = Some "Pizza orderer") as V
    by (vm_compute; reflexivity).
  split; [exact V|].
  intros H. rewrite H in V. vm_compute in V. discriminate V.
Qed.

(** ** Derived identifiers *)

Lemma split_nonempty (sep : ascii) (s : string) : split sep s ≠ [].
Proof.
  destruct s as [|c r]; simpl; [done|].
  destruct (Ascii.eqb c sep); [done|]. by destruct (split sep r).
Qed.

Lemma concat_cons_nonempty (sep x : string) (l : list string) :
  l ≠ [] → String.concat sep (x :: l) = x +:+ sep +:+ String.concat sep l.
Proof. by destruct l. Qed.

Lemma concat_push_char (sep : string) (c : ascii) (seg : string) (segs : list string) :
  String.concat sep (String c seg :: segs) = String c (String.concat sep (seg :: segs)).
Proof. by destruct segs. Qed.

Lemma join_split (sep : ascii) (s : string) :
  join (String sep EmptyString) (split sep s) = s.
Proof.
  unfold join. induction s as [|c r IH]; [done|]. simpl split.
  destruct (Ascii.eqb c sep) eqn:E.
  - apply Ascii.eqb_eq in E as ->.
    rewrite concat_cons_nonempty by apply split_nonempty. simpl. by rewrite IH.
  - destruct (split sep r) as [|seg segs] eqn:Es; [by apply split_nonempty in Es|].
    by rewrite concat_push_char, IH.
Qed.

Lemma split_segments_clean (sep : ascii) (s : string) :
  Forall (fun seg => contains sep seg = false) (split sep s).
Proof.
  induction s as [|c r IH]; simpl; [by repeat constructor|].
  destruct (Ascii.eqb c sep) eqn:E; [by constructor|].
  destruct (split sep r) as [|seg segs]; [by repeat constructor; simpl; rewrite E|].
  apply Forall_cons in IH as [Hseg Hsegs]. constructor; [|done].
  simpl. by rewrite E, Hseg.
Qed.

(** C6. The intent identifier is made of the segments of the skill name
    between its hyphens (they contain no hyphen and, joined with
    hyphens, give the name back), taken in reverse order and joined with
    dots; the name pizza-orderer gives orderer.pizza. *)
Theorem intent_name_reversed_segments (s : CreateAction) :
  (∃ segments : list string,
      join "-" segments = name s
      ∧ Forall (fun seg => contains "-" seg = false) segments
      ∧ intent_name s = join "." (reverse segments))
  ∧ (name s = "pizza-orderer" → intent_name s = "orderer.pizza").
Proof.
  split.
  - exists (split "-" (name s)). split; [apply join_split|].
    split; [apply split_segments_clean|done].
  - unfold intent_name. by intros ->.
Qed.

Lemma intent_name_reversed_segments_witness :
  name sample_skill = "pizza-orderer" ∧ intent_name sample_skill = "orderer.pizza".
Proof.
  split; [reflexivity|].
  apply (proj2 (intent_name_reversed_segments sample_skill)). reflexivity.
Defined.

(** C7, evaluated on the code. The class name shown for confirmation in
    [name] is the PascalCase name followed by Skill; the class name that
    [init_file] puts into the code stub is the PascalCase name alone. For
    the name siren-alarm the first is SirenAlarmSkill and the stub
    declares class SirenAlarm. *)
Theorem init_file_class_name_lacks_suffix :
  (∀ n : string, class_name n = Some (to_camel (replace "-" "_" n) +:+ "Skill"))
  ∧ class_name "siren-alarm" = Some "SirenAlarmSkill"
  ∧ ∀ w : world,
      init_file interrupted_skill w =
      Return
"from adapt.intent import IntentBuilder
from mycroft import MycroftSkill, intent_file_handler


class SirenAlarm(MycroftSkill):
    def __init__(self):
        MycroftSkill.__init__(self)

    @intent_file_handler('alarm.siren.intent')
    def handle_alarm_siren(self, message):
        self.speak_dialog('alarm.siren')


def create_skill():
    return SirenAlarm()

" w.
Proof.
  split; [|split].
  - intros n. unfold class_name, format. simpl.
    by destruct (to_camel (replace "-" "_" n)).
  - reflexivity.
  - intros w. reflexivity.
Qed.

(** ** The commit step *)

Lemma hex_digits_length (width : nat) (n : N) (acc : string) :
  String.length (hex_digits width n acc) = width + String.length acc.
Proof.
  revert n acc. induction width as [|width IH]; intros n acc; simpl; [done|].
  rewrite IH. simpl. lia.
Qed.

Lemma object_name_not_HEAD (c : commit) : String.eqb (object_name c) "HEAD" = false.
Proof.
  apply String.eqb_neq. intros E. apply (f_equal String.length) in E.
  unfold object_name in E. rewrite hex_digits_length in E. simpl in E. lia.
Qed.

Lemma git_dir_nonroot (working_dir : pathname) : git_dir working_dir ≠ [].
Proof. unfold git_dir, join_path. by destruct working_dir. Qed.

Lemma repository_at_set (working_dir : pathname) (r : repository) (w : world) :
  repository_at working_dir
    (set_fs (insert (git_dir working_dir) (GitDir r)) w) = Some r.
Proof.
  unfold repository_at. simpl.
  rewrite node_at_nonroot by apply git_dir_nonroot. by rewrite lookup_insert_eq.
Qed.



(** ** Remote provisioning *)

(** C9. When no remote called origin is configured, the user confirms
    and the hosting API answers [create_repo] with an error: status 422
    is raised as [GithubRepoExists] for the repository name, and with any
    other status the [GithubException] itself, status and data as
    received, is what the method raises; the state is left as it was. *)
Theorem create_github_repo_error_mapping
    (s : CreateAction) (gh : hosting) (get_repo_name : option string)
    (w : world) (out description : string) (status : Z) (data : string) :
  git_remote (path s) w = Return out w →
  "origin" ∉ split "010" out →
  confirm_input gh = Answered true →
  credentials_input gh = Answered tt →
  short_description s w = Return description w →
  create_repo gh (chosen_repo_name s get_repo_name) description = ApiError status data →
  create_github_repo s gh get_repo_name w =
    if (status =? 422)%Z
    then Raise (GithubRepoExists (chosen_repo_name s get_repo_name)) w
    else Raise (GithubException status data) w.
Proof.
  intros Hout Horigin Hyes Hcred Hdesc Hapi.
  unfold create_github_repo, bind. rewrite Hout.
  rewrite bool_decide_eq_false_2 by done. simpl.
  rewrite Hyes, Hcred. simpl. fold (chosen_repo_name s get_repo_name).
  unfold try_except, bind. rewrite Hdesc. unfold user_create_repo. rewrite Hapi. simpl.
  by destruct (status =? 422)%Z.
Qed.

Lemma create_github_repo_error_mapping_witness :
  create_github_repo sample_skill (refusing_host 422) None committed_world =
    Raise (GithubRepoExists "pizza-orderer-skill") committed_world
  ∧ create_github_repo sample_skill (refusing_host 404) None committed_world =
    Raise (GithubException 404 "refused") committed_world.
Proof.
  assert (git_remote (path sample_skill) committed_world = Return EmptyString committed_world)
    as Hout by (vm_compute; reflexivity).
  assert ("origin" ∉ split "010" EmptyString) as Horigin.
  { simpl. intros H. apply list_elem_of_singleton in H. discriminate H. }
  split.
  - apply (create_github_repo_error_mapping sample_skill (refusing_host 422) None
             committed_world EmptyString "Orders fresh pizzas from the store" 422 "refused"
             Hout Horigin eq_refl eq_refl eq_refl eq_refl).
  - apply (create_github_repo_error_mapping sample_skill (refusing_host 404) None
             committed_world EmptyString "Orders fresh pizzas from the store" 404 "refused"
             Hout Horigin eq_refl eq_refl eq_refl eq_refl).
Defined.

(** * Further properties *)

(** ** More on the string methods *)

Lemma split_clean (sep : ascii) (x : string) :
  contains sep x = false → split sep x = [x].
Proof.
  induction x as [|c r IH]; simpl; [done|].
  rewrite Ascii.eqb_sym. destruct (Ascii.eqb sep c) eqn:E; simpl; [done|].
  intros H. by rewrite IH.
Qed.

Lemma split_clean_app (sep : ascii) (x rest : string) :
  contains sep x = false →
  split sep (x +:+ String sep rest) = x :: split sep rest.
Proof.
  induction x as [|c r IH]; simpl.
  - by rewrite Ascii.eqb_refl.
  - rewrite Ascii.eqb_sym. destruct (Ascii.eqb sep c) eqn:E; simpl; [done|].
    intros H. by rewrite IH.
Qed.

Lemma split_join (sep : ascii) (l : list string) :
  l ≠ [] → Forall (fun x => contains sep x = false) l →
  split sep (join (String sep EmptyString) l) = l.
Proof.
  intros Hne Hl. unfold join. induction Hl as [|x l Hx Hl IH]; [done|].
  destruct l as [|y l].
  - simpl. by apply split_clean.
  - rewrite concat_cons_nonempty by done.
    change (String sep EmptyString +:+ ?r) with (String sep r).
    rewrite split_clean_app by done. by rewrite IH.
Qed.

(** ** More on remote provisioning *)

Lemma git_remote_lines (s : CreateAction) (w : world) (r : repository) :
  repository_at (path s) w = Some r →
  git_remote (path s) w = Return (join (String "010" EmptyString) (remotes r).*1) w.
Proof. intros H. unfold git_remote. by rewrite H. Qed.

Lemma remote_listed (r : repository) (n : string) :
  remote_names_clean r → n ≠ EmptyString →
  n ∈ split "010" (join (String "010" EmptyString) (remotes r).*1) ↔ n ∈ (remotes r).*1.
Proof.
  unfold remote_names_clean. intros Hclean Hn.
  destruct ((remotes r).*1) as [|x l] eqn:E.
  - simpl. split; intros H.
    + exfalso. apply Hn. by apply list_elem_of_singleton in H.
    + by apply elem_of_nil in H.
  - by rewrite split_join by done.
Qed.

Lemma origin_configured_returns_none
    (s : CreateAction) (gh : hosting) (get_repo_name : option string)
    (w : world) (r : repository) :
  repository_at (path s) w = Some r →
  remote_names_clean r →
  "origin" ∈ (remotes r).*1 →
  create_github_repo s gh get_repo_name w = Return None w.
Proof.
  intros Hr Hclean Horigin. unfold create_github_repo, bind.
  rewrite (git_remote_lines _ _ _ Hr).
  rewrite bool_decide_eq_true_2; [done|]. by apply remote_listed.
Qed.

(** X1. With a remote called origin already configured,
    [create_github_repo] returns [None] and leaves the state as it is:
    the user is not asked anything and the hosting API is not called,
    whatever they would have answered. *)
Theorem existing_origin_skips_provisioning
    (s : CreateAction) (gh : hosting) (get_repo_name : option string)
    (w : world) (r : repository) :
  repository_at (path s) w = Some r →
  remote_names_clean r →
  "origin" ∈ (remotes r).*1 →
  create_github_repo s gh get_repo_name w = Return None w.
Proof. exact (origin_configured_returns_none s gh get_repo_name w r). Qed.

Lemma existing_origin_skips_provisioning_witness :
  create_github_repo sample_skill absent_user None published_world =
  Return None published_world.
Proof.
  apply (existing_origin_skips_provisioning sample_skill absent_user None published_world
           {| commits := []; index := [];
              remotes := [("backup", "https://example.org/b.git");
                          ("origin", "https://example.org/o.git")] |}).
  - reflexivity.
  - repeat constructor.
  - set_solver.
Defined.





(** ** The generated texts *)

Lemma format_example_line (i : string) :
  format example_line_template [i] [] = Some (example_line i).
Proof. vm_compute. reflexivity. Qed.

Lemma format_each_example_lines (items : list string) (w : world) :
  format_each example_line_template items w = Return (map example_line items) w.
Proof.
  induction items as [|i rest IH]; [done|]. simpl. unfold bind, format_or_raise.
  rewrite format_example_line. simpl. by rewrite IH.
Qed.

Lemma format_readme (title_name short long lines who : string) :
  format credits_template [] [("author", who)] =
    Some ("## Credits" +:+ newline +:+ who +:+ newline +:+ newline)
  ∧ ∀ credits,
      format readme_template []
        [("title_name", title_name); ("short_description", short);
         ("long_description", long); ("examples", lines); ("credits", credits)] =
      Some ("## " +:+ title_name +:+ newline +:+ short +:+ newline +:+ newline +:+
            "## Description" +:+ newline +:+ long +:+ newline +:+ newline +:+
            "## Examples" +:+ newline +:+ lines +:+ newline +:+ newline +:+
            credits +:+ newline).
Proof. split; [|intros credits]; vm_compute; reflexivity. Qed.

Lemma append_assoc (a b c : string) : (a +:+ b) +:+ c = a +:+ b +:+ c.
Proof.
  induction a as [|x a IH]; [done|].
  change (String x ((a +:+ b) +:+ c) = String x (a +:+ b +:+ c)). by f_equal.
Qed.

Lemma readme_returns (s : CreateAction) (w : world)
    (short : string) (long exs : list string) (who : string) :
  short_description_input s = Answered short →
  long_description_input s = Answered long →
  examples_input s = Answered exs →
  author_input s = Answered who →
  readme s w =
  Return (readme_text (title (replace "-" " " (name s)))
            (capitalize short)
            (capitalize (strip (join (newline +:+ newline) long)))
            (map (fun i => example_line (rstrip "." (capitalize i))) exs)
            who) w.
Proof.
  intros E1 E2 E3 E4.
  unfold readme, short_description, long_description, examples, author, bind.
  rewrite E1, E2, E3, E4. cbv [ask ret]. rewrite format_each_example_lines.
  unfold format_or_raise.
  destruct (format_readme (title (replace "-" " " (name s))) (capitalize short)
              (capitalize (strip (join (newline +:+ newline) long)))
              (join EmptyString (map example_line (map (fun i => rstrip "." (capitalize i)) exs)))
              who) as [Hc Hr].
  rewrite Hc. unfold ret. cbv beta iota. rewrite Hr.
  unfold readme_text. rewrite map_map. f_equal.
  repeat (rewrite ?append_assoc; f_equal).
Qed.


Lemma format_init (class handler intent : string) :
  format init_template []
    [("class_name", class); ("handler_name", handler); ("intent_name", intent)] =
  Some (init_text class handler intent).
Proof. vm_compute. reflexivity. Qed.

Lemma replace_removes (old new : ascii) (x : string) :
  old ≠ new → contains old (replace old new x) = false.
Proof.
  intros Hne. unfold replace. induction x as [|c r IH]; simpl; [done|].
  rewrite IH, orb_false_r. destruct (Ascii.eqb c old) eqn:E.
  - apply Ascii.eqb_neq. congruence.
  - done.
Qed.

Lemma init_file_returns (s : CreateAction) (w : world) :
  init_file s w =
  Return (init_text (to_camel (replace "-" "_" (name s)))
                    (replace "." "_" (intent_name s))
                    (intent_name s)) w.
Proof. unfold init_file, format_or_raise. by rewrite format_init. Qed.

(** X5. For every skill name [init_file] returns the code stub (the
    format never fails, whatever characters the name holds) and leaves
    the state alone. The stub registers its handler for the intent file
    named after [intent_name], the file that [add_vocab] writes, and the
    handler name is the intent name with its dots replaced, so it holds
    no dot. *)
Theorem init_file_stub (s : CreateAction) (w : world) :
  init_file s w =
    Return (init_text (to_camel (replace "-" "_" (name s)))
                      (replace "." "_" (intent_name s))
                      (intent_name s)) w
  ∧ contains "." (replace "." "_" (intent_name s)) = false.
Proof. split; [apply init_file_returns|by apply replace_removes]. Qed.

(** ** Locale and identifiers *)

Lemma to_lower_idem (c : ascii) : to_lower (to_lower c) = to_lower c.
Proof. destruct c as [[] [] [] [] [] [] [] []]; reflexivity. Qed.

Lemma lower_idem (x : string) : lower (lower x) = lower x.
Proof.
  unfold lower. induction x as [|c r IH]; simpl; [done|].
  by rewrite to_lower_idem, IH.
Qed.

Lemma lower_empty (x : string) : lower x = EmptyString ↔ x = EmptyString.
Proof. by destruct x. Qed.

Lemma lang_returns (s : CreateAction) (w : world) (answer : string) :
  lang_input s = Answered answer → lang s w = Return (locale answer) w.
Proof.
  intros E. unfold lang, bind, locale. rewrite E. simpl.
  destruct (decide (answer = EmptyString)) as [->|Hne]; [done|].
  assert (lower answer ≠ EmptyString) as Hl by (by rewrite lower_empty).
  apply String.eqb_neq in Hl. by rewrite Hl.
Qed.

Lemma locale_nonempty (answer : string) : locale answer ≠ EmptyString.
Proof.
  unfold locale. destruct (decide (answer = EmptyString)); [done|].
  by rewrite lower_empty.
Qed.

Lemma locale_lower (answer : string) : lower (locale answer) = locale answer.
Proof.
  unfold locale. destruct (decide (answer = EmptyString)); [done|]. apply lower_idem.
Qed.

(** X6. The locale is never empty: an answered prompt gives the answer
    in lower case, or en-us when the answer is empty; the result is
    always in lower case and the state is unchanged. An interrupted
    prompt raises [KeyboardInterrupt]. *)
Theorem lang_outcome (s : CreateAction) (w : world) :
  match lang_input s with
  | Answered answer =>
      ∃ l, lang s w = Return l w
           ∧ l = (if decide (answer = EmptyString) then "en-us" else lower answer)
           ∧ l ≠ EmptyString
           ∧ lower l = l
  | Interrupted => lang s w = Raise KeyboardInterrupt w
  end.
Proof.
  destruct (lang_input s) as [answer|] eqn:E.
  - exists (locale answer). split; [by apply lang_returns|]. split; [done|].
    split; [apply locale_nonempty|apply locale_lower].
  - unfold lang, bind. by rewrite E.
Qed.

Lemma contains_split (c sep : ascii) (x : string) :
  contains c x = false → Forall (fun seg => contains c seg = false) (split sep x).
Proof.
  induction x as [|a r IH]; simpl; [by repeat constructor|].
  intros H. apply orb_false_elim in H as [Ha Hr]. specialize (IH Hr).
  destruct (Ascii.eqb a sep); [by constructor|].
  destruct (split sep r) as [|seg segs]; [by repeat constructor; simpl; rewrite Ha|].
  apply Forall_cons in IH as [Hseg Hsegs]. constructor; [|done].
  simpl. by rewrite Ha, Hseg.
Qed.

(** X7. For a skill name without dots (every name the prompt accepts),
    the name can be read back from the intent identifier: its segments
    between the dots, reversed and joined with hyphens, are the name.
    So two such skills with different names have different intent
    identifiers. *)
Theorem intent_name_invertible (s : CreateAction) :
  contains "." (name s) = false →
  join "-" (reverse (split "." (intent_name s))) = name s
  ∧ ∀ s', contains "." (name s') = false →
          intent_name s' = intent_name s → name s' = name s.
Proof.
  assert (∀ t, contains "." (name t) = false →
               join "-" (reverse (split "." (intent_name t))) = name t) as Hinv.
  { intros t Ht. unfold intent_name. rewrite split_join.
    - rewrite reverse_involutive. apply join_split.
    - intros E. apply (f_equal reverse) in E. rewrite reverse_involutive in E.
      by apply split_nonempty in E.
    - apply Forall_reverse. by apply contains_split. }
  intros Hs. split; [by apply Hinv|].
  intros s' Hs' E. rewrite <- (Hinv s' Hs'), <- (Hinv s Hs). by rewrite E.
Qed.

Lemma intent_name_invertible_witness :
  join "-" (reverse (split "." (intent_name sample_skill))) = "pizza-orderer".
Proof. apply (intent_name_invertible sample_skill). reflexivity. Defined.

(** ** The name prompt *)

Lemma normalize_name_map (raw : string) :
  normalize_name raw =
  map_chars name_map (rstrip_by space_or_hyphen (lstrip_by space_or_hyphen raw)).
Proof.
  unfold normalize_name, replace, lower.
  induction (rstrip_by space_or_hyphen (lstrip_by space_or_hyphen raw)) as [|c r IH];
    simpl; [done|]. by rewrite IH.
Qed.

Lemma name_map_class (c : ascii) :
  name_char c = true → is_lower (name_map c) || Ascii.eqb (name_map c) "-" = true.
Proof. destruct c as [[] [] [] [] [] [] [] []]; vm_compute; congruence. Qed.

Lemma name_map_inner (c : ascii) :
  name_char c = true → space_or_hyphen c = false → Ascii.eqb (name_map c) "-" = false.
Proof. destruct c as [[] [] [] [] [] [] [] []]; vm_compute; congruence. Qed.

Lemma name_map_fixed (c : ascii) :
  is_lower c || Ascii.eqb c "-" = true → name_map c = c.
Proof. destruct c as [[] [] [] [] [] [] [] []]; vm_compute; congruence. Qed.

Lemma hyphen_or_not (c : ascii) :
  is_lower c || Ascii.eqb c "-" = true → Ascii.eqb c "-" = false →
  space_or_hyphen c = false.
Proof. destruct c as [[] [] [] [] [] [] [] []]; vm_compute; congruence. Qed.

Lemma all_chars_map (p q : ascii → bool) (f : ascii → ascii) (x : string) :
  (∀ c, p c = true → q (f c) = true) →
  all_chars p x = true → all_chars q (map_chars f x) = true.
Proof.
  intros Hf. induction x as [|c r IH]; simpl; [done|].
  intros [Hc Hr]%andb_true_iff. by rewrite Hf, IH.
Qed.

Lemma all_chars_lstrip (p q : ascii → bool) (x : string) :
  all_chars p x = true → all_chars p (lstrip_by q x) = true.
Proof.
  induction x as [|c r IH]; simpl; [done|].
  intros H. destruct (q c); [|done]. apply andb_true_iff in H as [_ H]. auto.
Qed.

Lemma all_chars_rstrip (p q : ascii → bool) (x : string) :
  all_chars p x = true → all_chars p (rstrip_by q x) = true.
Proof.
  induction x as [|c r IH]; simpl; [done|].
  intros [Hc Hr]%andb_true_iff. specialize (IH Hr).
  destruct (rstrip_by q r) as [|c' r'].
  - destruct (q c); simpl; [done|]. by rewrite Hc.
  - change (p c && all_chars p (String c' r') = true). by rewrite Hc, IH.
Qed.

Lemma head_lstrip (q : ascii → bool) (x : string) (c : ascii) :
  head_char (lstrip_by q x) = Some c → q c = false.
Proof.
  induction x as [|a r IH]; simpl; [done|].
  destruct (q a) eqn:E; [done|]. simpl. by intros [= <-].
Qed.

Lemma head_rstrip (q : ascii → bool) (x : string) (c : ascii) :
  head_char (rstrip_by q x) = Some c → head_char x = Some c.
Proof.
  destruct x as [|a r]; simpl; [done|].
  destruct (rstrip_by q r); [by destruct (q a)|done].
Qed.

Lemma last_rstrip (q : ascii → bool) (x : string) (c : ascii) :
  last_char (rstrip_by q x) = Some c → q c = false.
Proof.
  induction x as [|a r IH]; simpl; [done|].
  destruct (rstrip_by q r) as [|a' r'] eqn:E.
  - destruct (q a) eqn:Ea; simpl; [done|]. by intros [= <-].
  - intros H. apply IH. exact H.
Qed.

Lemma head_map_chars (f : ascii → ascii) (x : string) :
  head_char (map_chars f x) = f <$> head_char x.
Proof. by destruct x. Qed.

Lemma last_map_chars (f : ascii → ascii) (x : string) :
  last_char (map_chars f x) = f <$> last_char x.
Proof.
  induction x as [|a r IH]; [done|]. simpl.
  destruct r as [|b r]; [done|]. exact IH.
Qed.

Lemma all_chars_head (p : ascii → bool) (x : string) (c : ascii) :
  all_chars p x = true → head_char x = Some c → p c = true.
Proof. destruct x; simpl; [done|]. intros [H _]%andb_true_iff [= <-]. done. Qed.

Lemma all_chars_last (p : ascii → bool) (x : string) (c : ascii) :
  all_chars p x = true → last_char x = Some c → p c = true.
Proof.
  induction x as [|a r IH]; simpl; [done|].
  intros [Ha Hr]%andb_true_iff. destruct r as [|b r]; [by intros [= <-]|]. by apply IH.
Qed.

Lemma lstrip_all (q : ascii → bool) (x : string) :
  all_chars q x = true → lstrip_by q x = EmptyString.
Proof.
  induction x as [|a r IH]; simpl; [done|]. intros [Ha Hr]%andb_true_iff.
  rewrite Ha. auto.
Qed.

Lemma lstrip_fixed (q : ascii → bool) (x : string) :
  (∀ c, head_char x = Some c → q c = false) → lstrip_by q x = x.
Proof. destruct x as [|a r]; simpl; [done|]. intros H. by rewrite (H a). Qed.

Lemma rstrip_fixed (q : ascii → bool) (x : string) :
  (∀ c, last_char x = Some c → q c = false) → rstrip_by q x = x.
Proof.
  induction x as [|a r IH]; simpl; [done|]. intros H.
  destruct r as [|b r].
  - simpl. by rewrite (H a).
  - rewrite IH by exact H. done.
Qed.

Lemma map_chars_fixed (p : ascii → bool) (f : ascii → ascii) (x : string) :
  (∀ c, p c = true → f c = c) → all_chars p x = true → map_chars f x = x.
Proof.
  intros Hf. induction x as [|a r IH]; simpl; [done|].
  intros [Ha Hr]%andb_true_iff. by rewrite Hf, IH.
Qed.

(** X8. What the name prompt makes of an accepted answer (letters,
    spaces and hyphens): only lower-case letters and hyphens, no hyphen
    at either end. Normalizing again changes nothing. An answer made
    only of spaces and hyphens is accepted too and gives the empty
    name. *)
Theorem normalize_name_shape (raw : string) :
  all_chars name_char raw = true →
  all_chars kebab_char (normalize_name raw) = true
  ∧ head_char (normalize_name raw) ≠ Some "-"%char
  ∧ last_char (normalize_name raw) ≠ Some "-"%char
  ∧ normalize_name (normalize_name raw) = normalize_name raw
  ∧ (all_chars space_or_hyphen raw = true → normalize_name raw = EmptyString).
Proof.
  intros Hraw. rewrite normalize_name_map.
  set (core := rstrip_by space_or_hyphen (lstrip_by space_or_hyphen raw)).
  assert (all_chars name_char core = true) as Hcore
    by (by apply all_chars_rstrip, all_chars_lstrip).
  assert (all_chars kebab_char (map_chars name_map core) = true) as Hkebab
    by (eapply all_chars_map; [apply name_map_class|done]).
  assert (head_char (map_chars name_map core) ≠ Some "-"%char) as Hhead.
  { rewrite head_map_chars. destruct (head_char core) as [c|] eqn:E; [|done].
    simpl. intros [= Hc].
    assert (space_or_hyphen c = false) as Hq
      by (eapply head_lstrip, head_rstrip; exact E).
    pose proof (name_map_inner c (all_chars_head _ _ _ Hcore E) Hq) as Hn.
    rewrite Hc in Hn. done. }
  assert (last_char (map_chars name_map core) ≠ Some "-"%char) as Hlast.
  { rewrite last_map_chars. destruct (last_char core) as [c|] eqn:E; [|done].
    simpl. intros [= Hc].
    assert (space_or_hyphen c = false) as Hq by (eapply last_rstrip; exact E).
    pose proof (name_map_inner c (all_chars_last _ _ _ Hcore E) Hq) as Hn.
    rewrite Hc in Hn. done. }
  split; [done|]. split; [done|]. split; [done|]. split.
  - rewrite normalize_name_map.
    rewrite lstrip_fixed, rstrip_fixed.
    + eapply map_chars_fixed; [apply name_map_fixed|exact Hkebab].
    + intros c Hc. apply hyphen_or_not;
        [change (kebab_char c = true); by eapply all_chars_last|].
      apply Ascii.eqb_neq. intros ->. done.
    + intros c Hc. apply hyphen_or_not;
        [change (kebab_char c = true); by eapply all_chars_head|].
      apply Ascii.eqb_neq. intros ->. done.
  - intros Hall. subst core. by rewrite lstrip_all.
Qed.

Lemma normalize_name_shape_witness :
  normalize_name " Siren  Alarm-" = "siren--alarm" ∧ normalize_name " - " = EmptyString.
Proof.
  split; [reflexivity|].
  destruct (normalize_name_shape " - " eq_refl) as (_ & _ & _ & _ & H).
  apply H. reflexivity.
Defined.

Lemma rmtree_return (p : pathname) (w w' : world) :
  rmtree p w = Return tt w' →
  plain p → is_directory w' p = false ∧ fs w' !! p = None.
Proof.
  intros H Hp. pose proof (rmtree_removes p w Hp) as Hgone. rewrite H in Hgone.
  split; [done|]. unfold rmtree in H.
  destruct (stat (fs w) p) as [[]|]; try done; injection H as <-; simpl;
    apply map_lookup_filter_None; right; intros n _ Hn; by apply Hn.
Qed.

(** X9. A name that the prompt loop returns was entered in one of the
    rounds and confirmed there as looking good; and if a skill of that
    name (or of that name followed by -skill) is installed, the user
    agreed in that round to remove it and its directory is gone. *)
Theorem ask_name_confirmed
    (table : gmap string skill_entry) (rounds : list name_round)
    (w w' : world) (n : string) :
  ask_name table rounds w = Return n w' →
  ∃ round raw,
    round ∈ rounds
    ∧ raw_answer round = Answered raw
    ∧ n = normalize_name raw
    ∧ looks_good_answer round = Answered true
    ∧ ∀ skill, find_skill table n = Some skill →
        remove_answer round = Answered true
        ∧ (plain (entry_path skill) → is_directory w' (entry_path skill) = false).
Proof.
  revert w. induction rounds as [|round rest IH]; intros w; simpl; [done|].
  assert (∀ w0, ask_name table rest w0 = Return n w' →
                ∃ round0 raw,
                  round0 ∈ round :: rest ∧ raw_answer round0 = Answered raw
                  ∧ n = normalize_name raw ∧ looks_good_answer round0 = Answered true
                  ∧ ∀ skill, find_skill table n = Some skill →
                      remove_answer round0 = Answered true
                      ∧ (plain (entry_path skill) →
                         is_directory w' (entry_path skill) = false)) as Hrest.
  { intros w0 H0. destruct (IH w0 H0) as (r0 & raw & Hin & ?). exists r0, raw.
    split; [by apply elem_of_cons; right|done]. }
  unfold bind. destruct (raw_answer round) as [raw|] eqn:Eraw; simpl; [|done].
  destruct (find_skill table (normalize_name raw)) as [skill|] eqn:Efind.
  - destruct (remove_answer round) as [[]|] eqn:Erm; simpl; [| |done].
    + destruct (rmtree (entry_path skill) w) as [[] w1|] eqn:Ert; simpl; [|done].
      destruct (looks_good_answer round) as [[]|] eqn:Eok; simpl; [| |done].
      * intros [= <- <-]. exists round, raw.
        split; [by apply elem_of_cons; left|]. split; [done|]. split; [done|]. split; [done|].
        intros sk Hsk. rewrite Efind in Hsk. injection Hsk as <-.
        split; [done|]. intros Hp. by apply (rmtree_return _ _ _ Ert).
      * apply Hrest.
    + apply Hrest.
  - simpl. destruct (looks_good_answer round) as [[]|] eqn:Eok; simpl; [| |done].
    + intros [= <- <-]. exists round, raw.
      split; [by apply elem_of_cons; left|]. split; [done|]. split; [done|]. split; [done|].
      intros sk Hsk. by rewrite Efind in Hsk.
    + apply Hrest.
Qed.

Lemma ask_name_confirmed_witness :
  ask_name (name_to_skill [installed_alarm]) replacing_session resumed_world =
    Return "siren-alarm" (final_world (rmtree (path interrupted_skill) resumed_world))
  ∧ ∃ round raw,
      round ∈ replacing_session
      ∧ raw_answer round = Answered raw
      ∧ "siren-alarm" = normalize_name raw
      ∧ looks_good_answer round = Answered true
      ∧ ∀ skill, find_skill (name_to_skill [installed_alarm]) "siren-alarm" = Some skill →
          remove_answer round = Answered true
          ∧ (plain (entry_path skill) →
             is_directory (final_world (rmtree (path interrupted_skill) resumed_world))
               (entry_path skill) = false).
Proof.
  assert (ask_name (name_to_skill [installed_alarm]) replacing_session resumed_world =
          Return "siren-alarm" (final_world (rmtree (path interrupted_skill) resumed_world)))
    as H by reflexivity.
  split; [exact H|].
  exact (ask_name_confirmed _ _ _ _ _ H).
Defined.

(** X10. The table of installed skills is built once, before the loop.
    So when the user has a skill removed, rejects the derived names and
    enters the same name again, the stale entry is found again and the
    second removal fails: the loop ends with [FileNotFoundError] for the
    directory that the first round removed. *)
Theorem ask_name_stale_table
    (table : gmap string skill_entry) (r1 r2 : name_round) (rest : list name_round)
    (w : world) (raw1 raw2 : string) (skill : skill_entry) :
  raw_answer r1 = Answered raw1 →
  raw_answer r2 = Answered raw2 →
  normalize_name raw2 = normalize_name raw1 →
  find_skill table (normalize_name raw1) = Some skill →
  remove_answer r1 = Answered true →
  looks_good_answer r1 = Answered false →
  remove_answer r2 = Answered true →
  plain (entry_path skill) →
  is_directory w (entry_path skill) = true →
  ask_name table (r1 :: r2 :: rest) w =
    Raise (FileNotFoundError (entry_path skill))
          (final_world (rmtree (entry_path skill) w)).
Proof.
  intros E1 E2 Hsame Hfind Hrm1 Hok1 Hrm2 Hp Hdir.
  assert (∃ w1, rmtree (entry_path skill) w = Return tt w1) as [w1 Hrt].
  { unfold rmtree. unfold is_directory in Hdir.
    destruct (stat (fs w) (entry_path skill)) as [[]|]; try done; eauto. }
  simpl. unfold bind. rewrite E1. simpl. rewrite Hfind, Hrm1. simpl.
  rewrite Hrt. simpl. rewrite Hok1. simpl.
  rewrite E2. simpl. rewrite Hsame, Hfind, Hrm2. simpl.
  destruct (rmtree_return _ _ _ Hrt Hp) as [_ Hgone].
  unfold rmtree at 1. rewrite Hp, Hgone. done.
Qed.

Lemma ask_name_stale_table_witness :
  ask_name (name_to_skill [installed_alarm]) second_thoughts resumed_world =
  Raise (FileNotFoundError (path interrupted_skill))
        (final_world (rmtree (path interrupted_skill) resumed_world)).
Proof.
  apply (ask_name_stale_table (name_to_skill [installed_alarm]) _ _ []
           resumed_world "Siren Alarm" "siren alarm" installed_alarm);
    try reflexivity.
  apply (plain_path interrupted_skill).
Defined.

(** X11. The prompt loop only ever removes: whatever way it ends, every
    node of the resulting file system was there before with the same
    content, and the [atexit] registry is untouched. Without a skill of
    an entered name it changes nothing at all. *)
Theorem ask_name_only_removes
    (table : gmap string skill_entry) (rounds : list name_round) (w : world) :
  let w' := final_world (ask_name table rounds w) in
  (∀ q node, fs w' !! q = Some node → fs w !! q = Some node)
  ∧ atexit w' = atexit w
  ∧ (table = ∅ → w' = w).
Proof.
  revert w. induction rounds as [|round rest IH]; intros w; simpl; [done|].
  unfold bind. destruct (raw_answer round) as [raw|]; simpl; [|done].
  destruct (find_skill table (normalize_name raw)) as [skill|] eqn:Efind.
  - assert (table ≠ ∅) as Hne.
    { intros ->. unfold find_skill in Efind. by rewrite !lookup_empty in Efind. }
    destruct (remove_answer round) as [[]|]; simpl; [| |done].
    + destruct (rmtree (entry_path skill) w) as [[] w1|e w1] eqn:Ert; simpl.
      * assert ((∀ q node, fs w1 !! q = Some node → fs w !! q = Some node)
                ∧ atexit w1 = atexit w) as [Hfs Hat].
        { pose proof (rmtree_registry (entry_path skill) w) as Ha.
          rewrite Ert in Ha. split; [|done]. intros q node Hq.
          apply (rmtree_lookup_Some (entry_path skill)). by rewrite Ert. }
        destruct (looks_good_answer round) as [[]|]; simpl; [done| |done].
        destruct (IH w1) as (IH1 & IH2 & _).
        split; [by auto|]. split; [congruence|done].
      * pose proof (rmtree_registry (entry_path skill) w) as Ha. rewrite Ert in Ha.
        split; [|done]. intros q node Hq.
        apply (rmtree_lookup_Some (entry_path skill)). by rewrite Ert.
    + destruct (IH w) as (IH1 & IH2 & _). done.
  - simpl. destruct (looks_good_answer round) as [[]|]; simpl; [done| |done].
    apply IH.
Qed.

Lemma ask_name_only_removes_witness :
  final_world (ask_name ∅ second_thoughts sample_world) = sample_world.
Proof.
  exact (proj2 (proj2 (ask_name_only_removes ∅ second_thoughts sample_world)) eq_refl).
Defined.

(** ** Exact results of the file-system commands *)

Lemma fs_set_fs (f : gmap pathname node → gmap pathname node) (w : world) :
  fs (set_fs f w) = f (fs w).
Proof. done. Qed.

Lemma makedirs_snoc (p : pathname) (c : string) (w : world) :
  makedirs (p ++ [c]) w =
  (let! head_exists := path_exists p in
   (if negb head_exists
    then try_except (makedirs p) is_FileExistsError (fun _ => ret tt)
    else ret tt) ;;
   mkdir (p ++ [c])) w.
Proof.
  unfold makedirs. rewrite reverse_snoc. cbn [makedirs_rev].
  by rewrite reverse_cons, reverse_involutive.
Qed.

Lemma mkdir_fresh (p : pathname) (w : world) (k : node) :
  node_at (fs w) p = None →
  node_at (fs w) (removelast p) = Some k → is_dir_node k = true →
  mkdir p w = Return tt (set_fs (insert p Dir) w).
Proof.
  intros Hp Hk Hd. unfold mkdir, parent_check. rewrite Hp, Hk. by destruct k.
Qed.

Lemma write_file_fresh (p : pathname) (c text : string) (w : world) (k : node) :
  c ≠ EmptyString →
  fs w !! (p ++ [c]) = None →
  node_at (fs w) p = Some k → is_dir_node k = true →
  write_file (p ++ [c]) text w = Return tt (set_fs (insert (p ++ [c]) (File text)) w).
Proof.
  intros Hc Hp Hk Hd. unfold write_file, parent_check.
  rewrite last_snoc, removelast_last.
  rewrite node_at_nonroot by (by destruct p). rewrite Hp, Hk.
  destruct c; [done|]. by destruct k.
Qed.

Lemma exists_in_snoc (w : world) (p : pathname) (c : string) :
  c ≠ EmptyString →
  exists_in w (p ++ [c]) = match fs w !! (p ++ [c]) with Some _ => true | None => false end.
Proof. intros Hc. unfold exists_in. by rewrite stat_snoc. Qed.

Lemma makedirs_child (p : pathname) (c : string) (w : world) (k : node) :
  c ≠ EmptyString →
  exists_in w p = true →
  node_at (fs w) p = Some k → is_dir_node k = true →
  fs w !! (p ++ [c]) = None →
  makedirs (p ++ [c]) w = Return tt (set_fs (insert (p ++ [c]) Dir) w).
Proof.
  intros Hc Hex Hk Hd Hp. rewrite makedirs_snoc. unfold bind, path_exists.
  rewrite Hex. simpl. eapply mkdir_fresh; [|by rewrite removelast_last|done].
  by rewrite node_at_nonroot by (by destruct p).
Qed.

Lemma makedirs_grandchild (p : pathname) (c d : string) (w : world) (k : node) :
  c ≠ EmptyString → d ≠ EmptyString →
  exists_in w p = true →
  node_at (fs w) p = Some k → is_dir_node k = true →
  fs w !! (p ++ [c]) = None →
  fs w !! ((p ++ [c]) ++ [d]) = None →
  makedirs ((p ++ [c]) ++ [d]) w =
  Return tt (set_fs (fun m => <[(p ++ [c]) ++ [d] := Dir]> (<[p ++ [c] := Dir]> m)) w).
Proof.
  intros Hc Hdne Hex Hk Hd Hpc Hpcd. rewrite makedirs_snoc. unfold bind, path_exists.
  rewrite exists_in_snoc, Hpc by done. simpl. unfold try_except.
  rewrite (makedirs_child p c w k) by done.
  erewrite mkdir_fresh.
  - reflexivity.
  - rewrite node_at_nonroot by (by destruct p). simpl.
    rewrite lookup_insert_ne; [done|].
    intros E. apply (f_equal List.length) in E. rewrite !length_app in E. simpl in E. lia.
  - rewrite removelast_last. rewrite node_at_nonroot by (by destruct p). simpl.
    apply lookup_insert_eq.
  - done.
Qed.

(** ** A first instantiation *)

Lemma root_entry_fresh (s : CreateAction) (w : world) (k : node) :
  fs w !! path s = None →
  exists_in w (skills_dir s) = true →
  node_at (fs w) (skills_dir s) = Some k → is_dir_node k = true →
  run_entry (path s) None (EmptyString, makedirs (path s) ;; ret PNone) w =
  Return tt (set_fs (insert (path s) Dir) w).
Proof.
  intros Hp Hex Hk Hd. unfold run_entry, bind, path_exists. cbn [fst snd truthy andb].
  rewrite exists_trailing_slash, node_at_path, Hp. cbn [negb].
  unfold path, join_path in *.
  rewrite (makedirs_child _ _ w k); try done.
  apply append_nonempty. discriminate.
Qed.

Lemma text_entry_fresh (dir : pathname) (file text : string) (c : cmd string)
    (w : world) (k : node) :
  file ≠ EmptyString →
  fs w !! (dir ++ [file]) = None →
  node_at (fs w) dir = Some k → is_dir_node k = true →
  c w = Return text w →
  run_entry dir None (file, let! t := c in ret (PStr t)) w =
  Return tt (set_fs (insert (dir ++ [file]) (File text)) w).
Proof.
  intros Hf Hp Hk Hd Hc.
  rewrite (run_entry_text dir file c text w);
    [|unfold join_path; by rewrite exists_in_snoc, Hp|done].
  unfold join_path. by eapply write_file_fresh.
Qed.

Lemma subdir_handler_fresh (s : CreateAction) (sub l text : string)
    (lf : string → string) (w : world) (k : node) :
  sub ≠ EmptyString → l ≠ EmptyString → lf l ≠ EmptyString →
  lang s w = Return l w →
  exists_in w (path s) = true →
  node_at (fs w) (path s) = Some k → is_dir_node k = true →
  fs w !! (path s ++ [sub]) = None →
  fs w !! ((path s ++ [sub]) ++ [l]) = None →
  fs w !! (((path s ++ [sub]) ++ [l]) ++ [lf l]) = None →
  (let! x := lang s in
   makedirs (join_path (join_path (path s) sub) x) ;;
   write_file (join_path (join_path (join_path (path s) sub) x) (lf x)) text ;;
   ret PNone) w =
  Return PNone
    (set_fs (fun m => <[((path s ++ [sub]) ++ [l]) ++ [lf l] := File text]>
                      (<[(path s ++ [sub]) ++ [l] := Dir]>
                      (<[path s ++ [sub] := Dir]> m))) w).
Proof.
  intros Hsub Hl Hlf Hlang Hex Hk Hd H1 H2 H3.
  unfold bind, join_path.
  rewrite Hlang. rewrite (makedirs_grandchild _ _ _ w k) by done.
  rewrite (write_file_fresh _ _ _ _ Dir); [reflexivity|done| | |done].
  - simpl. rewrite !lookup_insert_ne; [done|..];
      intros E; apply (f_equal List.length) in E; rewrite !length_app in E; simpl in E; lia.
  - rewrite node_at_nonroot by (by destruct (path s)). simpl. apply lookup_insert_eq.
Qed.

Lemma subdir_entry_fresh (s : CreateAction) (sub l text : string)
    (lf : string → string) (w : world) (k : node) :
  sub ≠ EmptyString → l ≠ EmptyString → lf l ≠ EmptyString →
  lang s w = Return l w →
  exists_in w (path s) = true →
  node_at (fs w) (path s) = Some k → is_dir_node k = true →
  fs w !! (path s ++ [sub]) = None →
  fs w !! ((path s ++ [sub]) ++ [l]) = None →
  fs w !! (((path s ++ [sub]) ++ [l]) ++ [lf l]) = None →
  run_entry (path s) None
    (sub, let! x := lang s in
          makedirs (join_path (join_path (path s) sub) x) ;;
          write_file (join_path (join_path (join_path (path s) sub) x) (lf x)) text ;;
          ret PNone) w =
  Return tt
    (set_fs (fun m => <[((path s ++ [sub]) ++ [l]) ++ [lf l] := File text]>
                      (<[(path s ++ [sub]) ++ [l] := Dir]>
                      (<[path s ++ [sub] := Dir]> m))) w).
Proof.
  intros Hsub Hl Hlf Hlang Hex Hk Hd H1 H2 H3.
  unfold run_entry. cbn [fst snd truthy andb]. unfold bind at 1, path_exists at 1.
  unfold join_path at 1. rewrite exists_in_snoc, H1 by done. cbn [negb].
  unfold bind at 1.
  by rewrite (subdir_handler_fresh s sub l text lf w k).
Qed.

Lemma git_entry_fresh (s : CreateAction) (w : world) :
  is_directory w (path s) = true →
  fs w !! (path s ++ [".git"]) = None →
  run_entry (path s) None (git_entry s) w =
  Return tt (set_fs (insert (path s ++ [".git"]) (GitDir empty_repository)) w).
Proof.
  intros Hdir Hp. unfold run_entry, git_entry, bind, path_exists, join_path.
  cbn [fst snd truthy andb]. rewrite exists_in_snoc, Hp by done. cbn [negb].
  unfold git_init, bind, isdir. rewrite Hdir. cbn [negb]. unfold git_dir, join_path.
  rewrite node_at_nonroot by (by destruct (path s)). rewrite Hp.
  cbv beta iota. unfold ret. rewrite exists_in_snoc by done.
  rewrite fs_set_fs, lookup_insert_eq. done.
Qed.

Ltac path_ne :=
  let E := fresh "E" in
  intros E;
  first [ solve [ apply (f_equal List.length) in E;
                  rewrite ?length_app in E; simpl in E; lia ]
        | solve [ rewrite <- ?app_assoc in E; apply app_inv_head in E;
                  simpl in E; discriminate E ] ].

Ltac under_prefix :=
  first [ done
        | solve [ eexists; rewrite <- ?app_assoc; reflexivity ] ].

Lemma filter_fresh_closure (i : nat) (p : pathname) (l : list (nat * pathname)) :
  filter (fun g : nat * pathname => g.1 ≠ i) (l ++ [(i, p)]) =
  filter (fun g : nat * pathname => g.1 ≠ i) l.
Proof.
  rewrite filter_app, filter_cons_False by (simpl; auto).
  by rewrite filter_nil, app_nil_r.
Qed.

Ltac open_fs := rewrite ?fs_set_fs; cbv beta.

Ltac solve_vacant H :=
  open_fs; rewrite ?lookup_insert_ne by path_ne; apply H; under_prefix.

Ltac solve_root :=
  unfold exists_in, is_directory; rewrite ?node_at_path, ?stat_path; open_fs;
  rewrite ?lookup_insert_ne by path_ne; rewrite lookup_insert_eq; done.

Lemma first_instantiation_loop (s : CreateAction) (a : answers) (w : world) :
  answered s a →
  directory_at w (skills_dir s) →
  vacant w (path s) →
  for_each (skill_template s) (run_entry (path s) None) w =
  Return tt (set_fs (skill_tree s (locale_of a) (readme_of s a)) w).
Proof.
  intros (Hlang & Hshort & Hlong & Hexs & Hwho) (Hex & k & Hk & Hd) Hfree.
  pose proof (locale_nonempty (answer_lang a)) as Hl.
  pose proof (lang_returns s) as Hlr. specialize (fun w => Hlr w _ Hlang).
  assert (∀ w0, readme s w0 = Return (readme_of s a) w0) as Hreadme
    by (intros w0; by apply readme_returns).
  unfold skill_template. cbn [for_each].
  unfold bind at 1.
  rewrite (root_entry_fresh s w k); [|by apply Hfree|done..].
  cbv beta iota. unfold bind at 1.
  erewrite (text_entry_fresh _ "__init__.py" _ _ _ Dir);
    [|done|solve_vacant Hfree|solve_root|done|apply init_file_returns].
  cbv beta iota. unfold bind at 1.
  erewrite (text_entry_fresh _ "README.md" _ _ _ Dir);
    [|done|solve_vacant Hfree|solve_root|done|apply Hreadme].
  cbv beta iota. unfold bind at 1.
  unfold add_vocab.
  erewrite (subdir_entry_fresh s "vocab" (locale_of a) _
              (fun x => intent_name s +:+ ".intent") _ Dir);
    [|done|done|by apply append_nonempty|apply Hlr|solve_root|solve_root|done
     |solve_vacant Hfree..].
  cbv beta iota. unfold bind at 1.
  unfold add_dialog.
  erewrite (subdir_entry_fresh s "dialog" (locale_of a) _
              (fun x => intent_name s +:+ ".dialog") _ Dir);
    [|done|done|by apply append_nonempty|apply Hlr|solve_root|solve_root|done
     |solve_vacant Hfree..].
  cbv beta iota. unfold bind at 1.
  change (ret (PStr gitignore_template))
    with (let! t := ret gitignore_template in ret (PStr t)).
  erewrite (text_entry_fresh _ ".gitignore" _ _ _ Dir);
    [|done|solve_vacant Hfree|solve_root|done|reflexivity].
  cbv beta iota. unfold bind at 1.
  erewrite (text_entry_fresh _ "settingsmeta.json" _ _ _ Dir);
    [|done|solve_vacant Hfree|solve_root|done|apply settingsmeta_returns].
  cbv beta iota. unfold bind at 1.
  fold (git_entry s).
  rewrite git_entry_fresh; [|solve_root|solve_vacant Hfree].
  reflexivity.
Qed.

Lemma instantiate_fresh (s : CreateAction) (a : answers) (w : world) :
  answered s a →
  directory_at w (skills_dir s) →
  vacant w (path s) →
  initialize_template s None w =
  Return tt {| fs := skill_tree s (locale_of a) (readme_of s a) (fs w);
               atexit := filter (fun g => g.1 ≠ closures w) (atexit w);
               closures := S (closures w) |}.
Proof.
  intros Hans Hdir Hfree. unfold initialize_template. rewrite instantiate_unfold.
  unfold bind.
  rewrite (first_instantiation_loop s a (loop_start (path s) w) Hans Hdir Hfree).
  unfold atexit_unregister, loop_start, cleanup_of, set_fs. simpl. f_equal. f_equal.
  assert (is_directory w (path s) = false) as ->.
  { unfold is_directory. rewrite stat_path, Hfree; done. }
  apply filter_fresh_closure.
Qed.

(** X12. A first instantiation goes through. When the skills directory
    exists, nothing is at or below the path of the skill and every
    prompt is answered, [initialize_template] returns; the file system
    is the old one with exactly the twelve nodes of the skill added
    (directory, code stub, README, vocab and dialog trees with one file
    each, ignore file, settings file, repository), and the cleanup
    closure it had registered is unregistered again. *)
Theorem first_instantiation (s : CreateAction) (a : answers) (w : world) :
  answered s a →
  directory_at w (skills_dir s) →
  vacant w (path s) →
  initialize_template s None w =
  Return tt {| fs := skill_tree s (locale_of a) (readme_of s a) (fs w);
               atexit := filter (fun g => g.1 ≠ closures w) (atexit w);
               closures := S (closures w) |}.
Proof. exact (instantiate_fresh s a w). Qed.

Lemma sample_vacant : vacant sample_world (path sample_skill).
Proof.
  intros q [rest ->]. unfold sample_world, sample_fs. simpl.
  rewrite !lookup_insert_ne; [apply lookup_empty|..]; intros E; discriminate E.
Qed.

Lemma sample_directory : directory_at sample_world (skills_dir sample_skill).
Proof. split; [reflexivity|]. exists Dir. split; reflexivity. Qed.

Lemma sample_answered : answered sample_skill sample_answers.
Proof. repeat split. Qed.

Lemma sample_first_run :
  initialize_template sample_skill None sample_world = Return tt sample_installed.
Proof.
  exact (instantiate_fresh sample_skill sample_answers sample_world
           sample_answered sample_directory sample_vacant).
Qed.

Lemma first_instantiation_witness :
  initialize_template sample_skill None sample_world = Return tt sample_installed.
Proof.
  exact (first_instantiation sample_skill sample_answers sample_world
           sample_answered sample_directory sample_vacant).
Defined.

(** ** After a run that went through *)

Lemma filter_Forall_id {A} (P : A → Prop) `{∀ x, Decision (P x)} (l : list A) :
  Forall P l → filter P l = l.
Proof.
  induction 1 as [|x l Hx Hl IH]; [done|].
  rewrite filter_cons_True by done. by rewrite IH.
Qed.

(** X13. A run that returns leaves the [atexit] registry as it found
    it. After a run over the whole template the skill directory exists,
    and it is still there after interpreter exit unless a callback
    registered earlier covers it. *)
Theorem successful_run_survives_exit
    (s : CreateAction) (files : option (gset string)) (w w' : world) :
  registry_fresh w →
  initialize_template s files w = Return tt w' →
  atexit w' = atexit w
  ∧ (truthy files = false →
     is_directory w' (path s) = true
     ∧ (Forall (fun g => ¬ g.2 `prefix_of` path s) (atexit w) →
        is_directory (run_exitfuncs w') (path s) = true)).
Proof.
  intros Hfresh H. apply instantiate_return in H as (w1 & Hrun & ->).
  pose proof (frame_entries (path s) files _ (frame_skill_template s) (loop_start (path s) w)) as G.
  rewrite Hrun in G. simpl in G.
  assert (filter (fun g : nat * pathname => g.1 ≠ closures w) (atexit w1) = atexit w) as Hreg.
  { rewrite (grows_atexit _ _ G). unfold loop_start. simpl.
    assert (filter (fun g : nat * pathname => g.1 ≠ closures w) (atexit w) = atexit w) as Hid.
    { apply filter_Forall_id. eapply Forall_impl; [exact Hfresh|]. intros g Hg. simpl in *. lia. }
    destruct (is_directory w (path s)); [done|].
    unfold cleanup_of. by rewrite filter_fresh_closure. }
  split; [done|]. intros Hall.
  assert (is_directory w1 (path s) = true) as Hdir.
  { apply entries_exist_after in Hrun;
      [|apply frame_skill_template|apply creates_skill_template].
    unfold skill_template in Hrun. apply Forall_cons in Hrun as [Hroot _].
    assert (selected files (EmptyString, makedirs (path s);; ret PNone) = true) as Hsel
      by (unfold selected; by rewrite Hall).
    specialize (Hroot Hsel). simpl in Hroot.
    rewrite exists_trailing_slash, node_at_path in Hroot.
    unfold is_directory. by rewrite stat_path. }
  split; [done|]. intros Hcov.
  rewrite run_exitfuncs_keeps; [done|apply plain_path|]. simpl. by rewrite Hreg.
Qed.

Lemma successful_run_survives_exit_witness :
  is_directory
    (run_exitfuncs (final_world (initialize_template sample_skill None sample_world)))
    (path sample_skill) = true.
Proof.
  assert (returns (initialize_template sample_skill None sample_world) = true) as R
    by (vm_compute; reflexivity).
  destruct (initialize_template sample_skill None sample_world) as [[] w'|e w'] eqn:E;
    [|discriminate R].
  destruct (successful_run_survives_exit sample_skill None sample_world w') as [_ H].
  - apply Forall_nil_2.
  - exact E.
  - destruct (H eq_refl) as [_ H']. apply H'. apply Forall_nil_2.
Defined.

(** ** Existing files are never overwritten *)

Lemma keeps_files_refl (w : world) : keeps_files w w.
Proof. by intros q text. Qed.

Lemma keeps_files_trans (w1 w2 w3 : world) :
  keeps_files w1 w2 → keeps_files w2 w3 → keeps_files w1 w3.
Proof. intros H1 H2 q text Hq. by apply H2, H1. Qed.

Lemma careful_unchanged {A} (c : cmd A) :
  (∀ w, fs (final_world (c w)) = fs w) → careful c.
Proof.
  intros H w Hwf. rewrite H. split; [done|]. intros q text. by rewrite H.
Qed.

Lemma careful_bind {A B} (c : cmd A) (k : A → cmd B) :
  careful c → (∀ a, careful (k a)) → careful (bind c k).
Proof.
  intros Hc Hk w Hwf. unfold bind. destruct (Hc w Hwf) as [Hwf1 Hkeep1].
  destruct (c w) as [a w1|e w1]; simpl in *; [|done].
  destruct (Hk a w1 Hwf1) as [Hwf2 Hkeep2]. split; [done|].
  by eapply keeps_files_trans.
Qed.

Lemma careful_try_except {A} (c : cmd A) catches (handler : exn → cmd A) :
  careful c → (∀ e, careful (handler e)) → careful (try_except c catches handler).
Proof.
  intros Hc Hh w Hwf. unfold try_except. destruct (Hc w Hwf) as [Hwf1 Hkeep1].
  destruct (c w) as [a w1|e w1]; simpl in *; [done|].
  destruct (catches e); [|done].
  destruct (Hh e w1 Hwf1) as [Hwf2 Hkeep2]. split; [done|].
  by eapply keeps_files_trans.
Qed.

Lemma careful_if {A} (b : bool) (c1 c2 : cmd A) :
  careful c1 → careful c2 → careful (if b then c1 else c2).
Proof. by destruct b. Qed.

Lemma careful_ret {A} (a : A) : careful (ret a).
Proof. by apply careful_unchanged. Qed.

Lemma careful_raise {A} (e : exn) : careful (@raise A e).
Proof. by apply careful_unchanged. Qed.

Lemma careful_ask {A} (q : prompt A) : careful (ask q).
Proof. destruct q; [apply careful_ret|apply careful_raise]. Qed.

Lemma careful_format_or_raise tpl args kwargs : careful (format_or_raise tpl args kwargs).
Proof.
  unfold format_or_raise. destruct (format tpl args kwargs);
    [apply careful_ret|apply careful_raise].
Qed.

Lemma wf_insert (m : gmap pathname node) (p : pathname) (n k : node) :
  fs_wf m → p ≠ [] →
  node_at m (removelast p) = Some k → is_dir_node k = true →
  (m !! p = None ∨ is_dir_node n = true) →
  fs_wf (<[p := n]> m).
Proof.
  intros Hwf Hp Hk Hd Hn q x Hq Hqne.
  assert (∀ r y, node_at m r = Some y → is_dir_node y = true →
                 ∃ z, node_at (<[p := n]> m) r = Some z ∧ is_dir_node z = true) as Hkeep.
  { intros r y Hr Hy. destruct r as [|c r]; [by exists Dir|]. simpl in *.
    destruct (decide (p = c :: r)) as [->|Hne].
    - rewrite lookup_insert_eq. exists n. split; [done|].
      destruct Hn as [Hn|Hn]; [congruence|done].
    - rewrite lookup_insert_ne by done. eauto. }
  destruct (decide (p = q)) as [<-|Hne].
  - by eapply Hkeep.
  - rewrite lookup_insert_ne in Hq by done.
    destruct (Hwf q x Hq Hqne) as (y & Hy & Hdy). by eapply Hkeep.
Qed.

Lemma keeps_files_insert (w : world) (p : pathname) (n : node) :
  (∀ text, fs w !! p ≠ Some (File text)) →
  keeps_files w (set_fs (insert p n) w).
Proof.
  intros Hp q text Hq. simpl. rewrite lookup_insert_ne; [done|]. intros ->. by eapply Hp.
Qed.

Ltac same := solve [simpl; split; [assumption|apply keeps_files_refl]].

Lemma careful_mkdir (p : pathname) : careful (mkdir p).
Proof.
  intros w Hwf. unfold mkdir, parent_check.
  destruct (node_at (fs w) p) as [n|] eqn:E; [same|].
  apply node_at_None in E as [Hp E].
  destruct (node_at (fs w) (removelast p)) as [k|] eqn:Ek; [|same].
  destruct k; simpl; try (same);
    (split; [eapply wf_insert; eauto|apply keeps_files_insert; by rewrite E]).
Qed.

Lemma careful_makedirs_rev (rname : list string) : careful (makedirs_rev rname).
Proof.
  induction rname as [|c rhead IH]; simpl; [apply careful_mkdir|].
  apply careful_bind; [by apply careful_unchanged|]. intros b.
  apply careful_bind; [|intros _; apply careful_mkdir].
  apply careful_if; [|apply careful_ret].
  apply careful_try_except; [done|]. intros _. apply careful_ret.
Qed.

Lemma careful_makedirs (p : pathname) : careful (makedirs p).
Proof. apply careful_makedirs_rev. Qed.

Lemma careful_write_absent (p : pathname) (text : string) (w : world) :
  fs_wf (fs w) → stat (fs w) p = None →
  fs_wf (fs (final_world (write_file p text w)))
  ∧ keeps_files w (final_world (write_file p text w)).
Proof.
  intros Hwf Habs. unfold write_file, parent_check.
  destruct (last p) as [c|] eqn:El.
  - destruct c as [|a c]; [same|].
    assert (node_at (fs w) p = None) as Hnone.
    { unfold stat in Habs. by rewrite El in Habs. }
    rewrite Hnone. apply node_at_None in Hnone as [Hp Hnone].
    destruct (node_at (fs w) (removelast p)) as [k|] eqn:Ek; [|same].
    destruct k; simpl; try (same);
      (split; [eapply wf_insert; eauto|apply keeps_files_insert; by rewrite Hnone]).
  - apply last_None in El as ->. same.
Qed.

Lemma careful_guarded_write (p : pathname) (text : string) :
  careful (let! now_there := path_exists p in
           if negb now_there then write_file p text else ret tt).
Proof.
  intros w Hwf. unfold bind, path_exists, exists_in.
  destruct (stat (fs w) p) eqn:E; simpl; [same|].
  by apply careful_write_absent.
Qed.

Lemma careful_git_init (s : CreateAction) : careful (git_init (path s)).
Proof.
  intros w Hwf. unfold git_init, bind, isdir, is_directory. rewrite stat_path.
  destruct (fs w !! path s) as [k|] eqn:Ek; simpl; [|same].
  destruct (is_dir_node k) eqn:Hd; simpl; [|same].
  assert (git_dir (path s) ≠ []) as Hne by apply git_dir_nonroot.
  assert (node_at (fs w) (removelast (git_dir (path s))) = Some k) as Hparent.
  { unfold git_dir, join_path. by rewrite removelast_last, node_at_path. }
  rewrite node_at_nonroot by done.
  destruct (fs w !! git_dir (path s)) as [[]|] eqn:E; simpl; try (same).
  - split; [eapply wf_insert; eauto|apply keeps_files_insert; by rewrite E].
  - split; [eapply wf_insert; eauto|apply keeps_files_insert; by rewrite E].
Qed.

Lemma mkdir_return_absent (p : pathname) (w w' : world) :
  mkdir p w = Return tt w' → fs w !! p = None ∧ fs w' = <[p := Dir]> (fs w).
Proof.
  unfold mkdir, parent_check. destruct (node_at (fs w) p) eqn:E; [done|].
  apply node_at_None in E as [Hp E].
  destruct (node_at (fs w) (removelast p)) as [[]|]; try done; by intros [= <-].
Qed.

Lemma makedirs_fresh_leaf (p : pathname) (c : string) (w w' : world) :
  fs_wf (fs w) → makedirs p w = Return tt w' → fs w' !! (p ++ [c]) = None.
Proof.
  intros Hwf H. destruct (decide (p = [])) as [->|Hp]; [done|].
  destruct (exists_last Hp) as (q & x & ->).
  rewrite makedirs_snoc in H. unfold bind, path_exists in H.
  set (pre := if negb (exists_in w q)
              then try_except (makedirs q) is_FileExistsError (fun _ => ret tt)
              else ret tt) in H.
  assert (careful pre) as Hpre.
  { subst pre. apply careful_if; [|apply careful_ret].
    apply careful_try_except; [apply careful_makedirs|]. intros _. apply careful_ret. }
  destruct (Hpre w Hwf) as [Hwf2 _].
  destruct (pre w) as [[] w2|]; [|done]. simpl in Hwf2.
  destruct (mkdir (q ++ [x]) w2) as [[] w3|] eqn:Em; [|done]. injection H as <-.
  apply mkdir_return_absent in Em as [Habs ->].
  rewrite lookup_insert_ne.
  - destruct (fs w2 !! ((q ++ [x]) ++ [c])) as [n|] eqn:E; [|done].
    destruct (Hwf2 _ _ E) as (k & Hk & _); [by destruct (q ++ [x])|].
    rewrite removelast_last, node_at_nonroot in Hk by (by destruct q).
    rewrite Habs in Hk. discriminate Hk.
  - intros E. apply (f_equal List.length) in E. rewrite !length_app in E. simpl in E. lia.
Qed.

Lemma careful_subdir (s : CreateAction) (sub text : string) (lf : string → string) :
  careful (let! x := lang s in
           makedirs (join_path (join_path (path s) sub) x) ;;
           write_file (join_path (join_path (join_path (path s) sub) x) (lf x)) text ;;
           ret PNone).
Proof.
  intros w Hwf. unfold bind.
  destruct (lang_input s) as [answer|] eqn:Ea.
  2:{ unfold lang, bind. rewrite Ea. same. }
  rewrite (lang_returns s w answer Ea). set (l := locale answer).
  pose proof (careful_makedirs (join_path (join_path (path s) sub) l) w Hwf) as Hcm.
  destruct (makedirs (join_path (join_path (path s) sub) l) w) as [[] w1|e w1] eqn:Em;
    simpl in Hcm; destruct Hcm as [Hwf1 Hk1]; [|split; assumption].
  pose proof (makedirs_fresh_leaf _ (lf l) _ _ Hwf Em) as Hleaf.
  destruct (decide (lf l = EmptyString)) as [Elf|Elf].
  - unfold write_file, join_path. rewrite last_snoc, Elf. simpl.
    split; [done|]. done.
  - assert (stat (fs w1) (join_path (join_path (join_path (path s) sub) l) (lf l)) = None)
      as Habs by (unfold join_path in *; by rewrite stat_snoc).
    pose proof (careful_write_absent _ text w1 Hwf1 Habs) as Hcw.
    destruct (write_file _ text w1) as [[] w2|e w2]; simpl in Hcw;
      destruct Hcw as [Hwf2 Hk2]; simpl;
      (split; [done|by eapply keeps_files_trans]).
Qed.

Lemma careful_text {A} (c : cmd string) (k : string → A) :
  (∀ w, fs (final_world (c w)) = fs w) → careful (let! text := c in ret (k text)).
Proof.
  intros H. apply careful_bind; [by apply careful_unchanged|]. intros. apply careful_ret.
Qed.

Lemma unchanged_bind {A B} (c : cmd A) (k : A → cmd B) :
  (∀ w, fs (final_world (c w)) = fs w) →
  (∀ a w, fs (final_world (k a w)) = fs w) →
  ∀ w, fs (final_world (bind c k w)) = fs w.
Proof.
  intros Hc Hk w. unfold bind. specialize (Hc w).
  destruct (c w) as [a w1|e w1]; simpl in *; [|done]. by rewrite Hk.
Qed.

Lemma unchanged_ask {A} (q : prompt A) (w : world) : fs (final_world (ask q w)) = fs w.
Proof. by destruct q. Qed.

Lemma unchanged_format_or_raise tpl args kwargs (w : world) :
  fs (final_world (format_or_raise tpl args kwargs w)) = fs w.
Proof. unfold format_or_raise. by destruct (format tpl args kwargs). Qed.

Lemma unchanged_format_each tpl items (w : world) :
  fs (final_world (format_each tpl items w)) = fs w.
Proof.
  revert w. induction items as [|i rest IH]; intros w; [done|]. simpl.
  apply unchanged_bind; [apply unchanged_format_or_raise|]. intros line.
  apply unchanged_bind; [done|]. by intros.
Qed.

Lemma unchanged_readme (s : CreateAction) (w : world) :
  fs (final_world (readme s w)) = fs w.
Proof.
  revert w. unfold readme, short_description, long_description, examples, author.
  repeat (first [ apply unchanged_ask | apply unchanged_format_or_raise
                | apply unchanged_format_each | done
                | apply unchanged_bind; [|intros ?] ]).
Qed.

Lemma careful_skill_template (s : CreateAction) :
  Forall (fun e : entry => careful e.2) (skill_template s).
Proof.
  unfold skill_template.
  repeat (apply Forall_cons_2; [simpl|]); [..|apply Forall_nil_2].
  - apply careful_bind; [apply careful_makedirs|]. intros. apply careful_ret.
  - apply careful_text. intros w. apply unchanged_format_or_raise.
  - apply careful_text. apply unchanged_readme.
  - apply (careful_subdir s "vocab" _ (fun _ => _)).
  - apply (careful_subdir s "dialog" _ (fun _ => _)).
  - apply careful_ret.
  - apply careful_text. intros w. apply unchanged_format_or_raise.
  - apply careful_bind; [apply careful_git_init|]. intros. apply careful_ret.
Qed.

Lemma careful_run_entry dir files (e : entry) :
  careful e.2 → careful (run_entry dir files e).
Proof.
  intros He. unfold run_entry. apply careful_if; [apply careful_ret|].
  apply careful_bind; [by apply careful_unchanged|]. intros b.
  apply careful_if; [|apply careful_ret].
  apply careful_bind; [done|]. intros [|text]; [apply careful_ret|].
  apply careful_guarded_write.
Qed.

Lemma careful_for_each {A} (l : list A) (body : A → cmd unit) :
  Forall (fun x => careful (body x)) l → careful (for_each l body).
Proof.
  induction 1; simpl; [apply careful_ret|]. apply careful_bind; [done|]. by intros _.
Qed.

Lemma careful_instantiate dir (template : list entry) files :
  Forall (fun e : entry => careful e.2) template →
  careful (instantiate dir template files).
Proof.
  intros H. unfold instantiate.
  apply careful_bind; [by apply careful_unchanged|]. intros f.
  apply careful_bind; [by apply careful_unchanged|]. intros b.
  apply careful_bind; [destruct b; by apply careful_unchanged|]. intros _.
  apply careful_bind; [|intros _; by apply careful_unchanged].
  apply careful_for_each. eapply Forall_impl; [exact H|].
  intros e He. by apply careful_run_entry.
Qed.

(** X14. On a well-formed tree (whatever exists lies in a directory),
    [initialize_template] never overwrites: whether it returns or
    raises, with or without a filter, every regular file that was there
    has the content it had, every directory is still a directory, and
    the tree is still well formed. *)
Theorem initialize_template_never_overwrites
    (s : CreateAction) (files : option (gset string)) (w : world) :
  fs_wf (fs w) →
  let w' := final_world (initialize_template s files w) in
  (∀ q text, fs w !! q = Some (File text) → fs w' !! q = Some (File text))
  ∧ (∀ q, is_directory w q = true → is_directory w' q = true)
  ∧ fs_wf (fs w').
Proof.
  intros Hwf w'.
  destruct (careful_instantiate (path s) _ files (careful_skill_template s) w Hwf)
    as [Hwf' Hkeep].
  split; [exact Hkeep|]. split; [|exact Hwf'].
  intros q Hq. subst w'. unfold initialize_template.
  pose proof (frame_entries (path s) files _ (frame_skill_template s) (loop_start (path s) w)) as G.
  rewrite instantiate_unfold. unfold bind.
  destruct (for_each _ _ (loop_start (path s) w)) as [[] w1|e w1]; simpl in *;
    by apply (grows_is_directory _ _ _ G).
Qed.

Lemma fs_wf_check_sound (m : gmap pathname node) : fs_wf_check m = true → fs_wf m.
Proof.
  unfold fs_wf_check. intros H p n Hp Hne.
  rewrite forallb_forall in H.
  specialize (H (p, n)). simpl in H.
  assert (In (p, n) (map_to_list m)) as Hin
    by (by apply list_elem_of_In, elem_of_map_to_list).
  specialize (H Hin). destruct p as [|c p]; [done|].
  destruct (node_at m (removelast (c :: p))) as [k|]; [|done]. eauto.
Qed.

Lemma initialize_template_never_overwrites_witness :
  fs (final_world (initialize_template sample_skill None hand_written_world))
    !! (path sample_skill ++ ["README.md"]) = Some (File "my own notes").
Proof.
  destruct (initialize_template_never_overwrites sample_skill None hand_written_world)
    as [H _].
  - apply fs_wf_check_sound. vm_compute. reflexivity.
  - apply H. reflexivity.
Defined.

(** ** [add_vocab] and [add_dialog] on their own *)

Lemma subdir_not_repeatable (s : CreateAction) (sub text : string)
    (lf : string → string) (w w' : world) (v : pyval) :
  sub ≠ EmptyString →
  (let! x := lang s in
   makedirs (join_path (join_path (path s) sub) x) ;;
   write_file (join_path (join_path (join_path (path s) sub) x) (lf x)) text ;;
   ret PNone) w = Return v w' →
  ∃ l,
    lang s w' = Return l w'
    ∧ (let! x := lang s in
       makedirs (join_path (join_path (path s) sub) x) ;;
       write_file (join_path (join_path (join_path (path s) sub) x) (lf x)) text ;;
       ret PNone) w' =
      Raise (FileExistsError (join_path (join_path (path s) sub) l)) w'.
Proof.
  intros Hsub. unfold bind.
  destruct (lang_input s) as [answer|] eqn:Ea.
  2:{ unfold lang, bind. by rewrite Ea. }
  rewrite !(lang_returns s _ answer Ea). set (l := locale answer).
  destruct (makedirs (join_path (join_path (path s) sub) l) w) as [[] w1|] eqn:Em; [|done].
  destruct (write_file _ text w1) as [[] w2|] eqn:Ew; [|done].
  intros [= <- <-]. exists l. split; [done|].
  apply makedirs_return in Em as [w0 Em]. apply mkdir_creates in Em as [Hleaf (k & Hk & Hd)].
  match type of Ew with
  | write_file ?p _ _ = _ => pose proof (frame_write_file p text w1) as G
  end.
  rewrite Ew in G. destruct G as [Hkeep _ _]. simpl in Hkeep.
  destruct (Hkeep _ _ Hleaf) as (n1 & Hn1 & _).
  destruct (Hkeep _ _ Hk) as (n2 & Hn2 & _).
  unfold join_path in *. rewrite removelast_last in Hn2.
  rewrite makedirs_snoc. unfold bind, path_exists.
  rewrite exists_in_snoc by done.
  rewrite node_at_nonroot in Hn2 by (by destruct (path s)). rewrite Hn2. simpl.
  unfold mkdir. by rewrite Hn1.
Qed.

(** X15. [add_vocab] and [add_dialog] cannot be run a second time: once
    one of them has returned, calling it again raises [FileExistsError]
    for the locale directory it had created (the directories are made
    without [exist_ok]) and changes nothing. *)
Theorem add_vocab_not_repeatable (s : CreateAction) (w w' : world) (v : pyval) :
  (add_vocab s w = Return v w' →
   ∃ l, lang s w' = Return l w'
        ∧ add_vocab s w' =
          Raise (FileExistsError (join_path (join_path (path s) "vocab") l)) w')
  ∧ (add_dialog s w = Return v w' →
     ∃ l, lang s w' = Return l w'
          ∧ add_dialog s w' =
            Raise (FileExistsError (join_path (join_path (path s) "dialog") l)) w').
Proof.
  split.
  - by apply (subdir_not_repeatable s "vocab" _ (fun _ => _)).
  - by apply (subdir_not_repeatable s "dialog" _ (fun _ => _)).
Qed.

Lemma add_vocab_not_repeatable_witness :
  add_vocab interrupted_skill resumed_world = Return PNone vocab_added_world
  ∧ ∃ l, lang interrupted_skill vocab_added_world = Return l vocab_added_world
         ∧ add_vocab interrupted_skill vocab_added_world =
           Raise (FileExistsError
                    (join_path (join_path (path interrupted_skill) "vocab") l))
                 vocab_added_world.
Proof.
  assert (add_vocab interrupted_skill resumed_world = Return PNone vocab_added_world) as H.
  { apply (subdir_handler_fresh interrupted_skill "vocab" "en-us" _
             (fun _ => intent_name interrupted_skill +:+ ".intent") resumed_world Dir);
      reflexivity || discriminate. }
  split; [exact H|].
  exact (proj1 (add_vocab_not_repeatable interrupted_skill resumed_world
                  vocab_added_world PNone) H).
Defined.

(** ** The commit step after instantiation *)

Lemma commit_changes_noop (s : CreateAction) (w : world) :
  match repository_at (path s) w with
  | Some r => commits r ≠ []
  | None => True
  end →
  commit_changes s w = Return tt w.
Proof.
  unfold commit_changes, bind, rev_parse_HEAD.
  destruct (repository_at (path s) w) as [r|]; [|done].
  destruct (commits r) as [|c cs]; [done|]. intros _. by rewrite object_name_not_HEAD.
Qed.

Lemma commit_changes_cases (s : CreateAction) (w : world) :
  (commit_changes s w = Return tt w
   ∧ match repository_at (path s) w with
     | Some r => commits r ≠ []
     | None => True
     end)
  ∨ ∃ r c, repository_at (path s) w = Some r
           ∧ commit_changes s w =
             Return tt (set_fs (insert (git_dir (path s))
                                  (GitDir {| commits := c :: commits r;
                                             index := worktree_files (path s) w;
                                             remotes := remotes r |})) w).
Proof.
  unfold commit_changes, bind, rev_parse_HEAD.
  destruct (repository_at (path s) w) as [r|] eqn:Hr; [|by left].
  destruct (commits r) as [|c cs] eqn:Ec.
  - right. exists r. eexists. split; [done|]. simpl.
    unfold git_add_all. rewrite Hr. unfold set_repository.
    unfold git_commit. rewrite repository_at_set. unfold set_repository. simpl.
    rewrite Ec. unfold set_fs. simpl. rewrite insert_insert_eq. reflexivity.
  - left. by rewrite object_name_not_HEAD.
Qed.




Lemma frame_commit_changes (s : CreateAction) : frame (commit_changes s).
Proof.
  intros w. destruct (commit_changes_cases s w) as [[-> _]|(r & c & Hr & ->)];
    [apply grows_refl|]. simpl.
  apply grows_set_fs, keeps_nodes_insert; [apply git_dir_nonroot|].
  intros k Hk. unfold repository_at in Hr.
  rewrite node_at_nonroot, Hk in Hr by apply git_dir_nonroot. by destruct k.
Qed.

Lemma commit_changes_has_commit (s : CreateAction) (w w' : world) :
  commit_changes s w = Return tt w' →
  match repository_at (path s) w' with
  | Some r => commits r ≠ []
  | None => True
  end.
Proof.
  destruct (commit_changes_cases s w) as [[H Hc]|(r & c & Hr & H)];
    rewrite H; intros [= <-]; [done|].
  by rewrite repository_at_set.
Qed.

(** X17. Instantiating and committing, done twice, is done once: after
    [initialize_template] over the whole template and [commit_changes]
    have returned, running both again returns and leaves the file
    system, repository included, exactly as it was. *)
Theorem local_steps_idempotent (s : CreateAction) (w w1 w2 : world) :
  initialize_template s None w = Return tt w1 →
  commit_changes s w1 = Return tt w2 →
  ∃ w3, initialize_template s None w2 = Return tt w3
        ∧ commit_changes s w3 = Return tt w3
        ∧ fs w3 = fs w2.
Proof.
  intros H1 H2. apply instantiate_return in H1 as (w0 & Hrun & ->).
  apply entries_exist_after in Hrun;
    [|apply frame_skill_template|apply creates_skill_template].
  pose proof (frame_commit_changes s
                {| fs := fs w0;
                   atexit := filter (fun g : nat * pathname => g.1 ≠ closures w) (atexit w0);
                   closures := closures w0 |}) as G.
  rewrite H2 in G. simpl in G.
  eexists. split; [|split].
  - apply instantiate_return. eexists. split; [|reflexivity].
    apply entries_all_skipped. eapply Forall_impl; [exact Hrun|].
    intros e He Hsel.
    erewrite exists_in_fs; [apply (grows_exists _ _ _ G)|reflexivity].
    erewrite exists_in_fs; [exact (He Hsel)|reflexivity].
  - apply commit_changes_noop.
    pose proof (commit_changes_has_commit _ _ _ H2) as Hc. exact Hc.
  - reflexivity.
Qed.

Lemma local_steps_idempotent_witness :
  ∃ w2 w3,
    commit_changes sample_skill sample_installed = Return tt w2
    ∧ initialize_template sample_skill None w2 = Return tt w3
    ∧ fs w3 = fs w2.
Proof.
  assert (∃ w2, commit_changes sample_skill sample_installed = Return tt w2) as [w2 H2].
  { destruct (commit_changes_cases sample_skill sample_installed)
      as [[H _]|(r & c & _ & H)]; eauto. }
  exists w2.
  destruct (local_steps_idempotent sample_skill sample_world sample_installed w2
              sample_first_run H2) as (w3 & H3 & _ & Hfs).
  exists w3. split; [exact H2|]. split; [exact H3|exact Hfs].
Defined.

(** ** The whole action *)

Lemma elem_of_worktree_files (working_dir rel : pathname) (text : string) (w : world) :
  (rel, text) ∈ worktree_files working_dir w ↔
  fs w !! (working_dir ++ rel) = Some (File text)
  ∧ ¬ git_dir working_dir `prefix_of` (working_dir ++ rel).
Proof.
  unfold worktree_files. rewrite list_elem_of_omap. split.
  - intros ([p n] & Hin & Hf). apply elem_of_map_to_list in Hin. simpl in Hf.
    destruct n as [|t|]; try done. unfold relative_to in Hf.
    destruct (decide (working_dir `prefix_of` p)) as [[k ->]|]; [|done].
    rewrite drop_app_length in Hf.
    destruct (decide (git_dir working_dir `prefix_of` working_dir ++ k)); [done|].
    by injection Hf as <- <-.
  - intros [Hlook Hgit]. exists (working_dir ++ rel, File text).
    split; [by apply elem_of_map_to_list|]. simpl. unfold relative_to.
    rewrite decide_True by (by apply prefix_app_r).
    rewrite drop_app_length. by rewrite decide_False.
Qed.

Lemma skill_tree_git_free (s : CreateAction) (l readme_text text : string)
    (w : world) (k : pathname) :
  vacant w (path s) →
  skill_tree s l readme_text (fs w) !! ((path s ++ [".git"]) ++ k) ≠ Some (File text).
Proof.
  intros Hfree. unfold skill_tree. destruct k as [|c k].
  - rewrite app_nil_r, lookup_insert_eq. discriminate.
  - rewrite !lookup_insert_ne by path_ne. rewrite Hfree; [discriminate|under_prefix].
Qed.

Lemma commit_changes_fresh (s : CreateAction) (w : world) (r : repository) :
  repository_at (path s) w = Some r → commits r = [] →
  commit_changes s w =
  Return tt (set_fs (insert (git_dir (path s))
                       (GitDir {| commits := [ {| commit_id := 0;
                                                  commit_message := "Initial commit";
                                                  commit_tree := worktree_files (path s) w |} ];
                                  index := worktree_files (path s) w;
                                  remotes := remotes r |})) w).
Proof.
  intros Hr Ec. unfold commit_changes, bind, rev_parse_HEAD. rewrite Hr, Ec. simpl.
  unfold git_add_all. rewrite Hr. unfold set_repository.
  unfold git_commit. rewrite repository_at_set. unfold set_repository. simpl.
  rewrite Ec. unfold set_fs. simpl. by rewrite insert_insert_eq.
Qed.

(** X18. The whole action on a first run with a user who declines the
    remote repository: when the skills directory exists, nothing is at
    the path of the skill and the prompts are answered, [perform]
    returns; the repository of the skill holds exactly one commit, with
    the message Initial commit, whose tree is the set of regular files of
    the new skill (among them the README); nothing but the skill tree
    was added to the file system, and no remote is configured. *)
Theorem perform_first_run
    (s : CreateAction) (a : answers) (gh : hosting) (w : world) :
  answered s a →
  directory_at w (skills_dir s) →
  vacant w (path s) →
  confirm_input gh = Answered false →
  ∃ w' tree,
    perform s gh w = Return tt w'
    ∧ repository_at (path s) w' =
      Some {| commits := [ {| commit_id := 0;
                              commit_message := "Initial commit";
                              commit_tree := tree |} ];
              index := tree;
              remotes := [] |}
    ∧ (∀ rel text,
         (rel, text) ∈ tree ↔
         skill_tree s (locale_of a) (readme_of s a) (fs w) !! (path s ++ rel)
           = Some (File text))
    ∧ (["README.md"], readme_of s a) ∈ tree
    ∧ (∀ q, q ≠ git_dir (path s) →
            fs w' !! q = skill_tree s (locale_of a) (readme_of s a) (fs w) !! q).
Proof.
  intros Hans Hdir Hfree Hno.
  set (w1 := {| fs := skill_tree s (locale_of a) (readme_of s a) (fs w);
                atexit := filter (fun g : nat * pathname => g.1 ≠ closures w) (atexit w);
                closures := S (closures w) |}).
  assert (repository_at (path s) w1 = Some empty_repository) as Hr.
  { unfold repository_at, w1, skill_tree. simpl.
    rewrite node_at_nonroot by apply git_dir_nonroot.
    unfold git_dir, join_path. by rewrite lookup_insert_eq. }
  assert (∀ rel text,
            (rel, text) ∈ worktree_files (path s) w1 ↔
            skill_tree s (locale_of a) (readme_of s a) (fs w) !! (path s ++ rel)
              = Some (File text)) as Htree.
  { intros rel text. rewrite elem_of_worktree_files. simpl. split; [by intros [H _]|].
    intros H. split; [done|]. intros [k Hk]. rewrite Hk in H.
    by apply skill_tree_git_free in H. }
  eexists. exists (worktree_files (path s) w1).
  split; [|split; [|split; [exact Htree|split]]].
  - unfold perform. unfold bind at 1. rewrite (instantiate_fresh s a w Hans Hdir Hfree).
    fold w1. unfold bind at 1. rewrite (commit_changes_fresh s w1 _ Hr eq_refl).
    unfold print_error, try_except, bind, create_github_repo, bind, git_remote.
    rewrite repository_at_set. simpl. rewrite Hno. simpl. reflexivity.
  - apply repository_at_set.
  - apply Htree. unfold skill_tree.
    rewrite !lookup_insert_ne by path_ne. apply lookup_insert_eq.
  - intros q Hq. simpl. by rewrite lookup_insert_ne.
Qed.

Lemma perform_first_run_witness :
  ∃ w', perform sample_skill declining_user sample_world = Return tt w'
        ∧ (List.length <$> (commits <$> repository_at (path sample_skill) w')) = Some 1.
Proof.
  destruct (perform_first_run sample_skill sample_answers declining_user sample_world
              sample_answered sample_directory sample_vacant eq_refl)
    as (w' & tree & H1 & H2 & _).
  exists w'. split; [exact H1|]. by rewrite H2.
Defined.

(** ** Example phrases *)

Lemma rstrip_no_trailing (ch : ascii) (x : string) : last_char (rstrip ch x) ≠ Some ch.
Proof.
  induction x as [|c r IH]; simpl; [done|].
  destruct (rstrip ch r) as [|c' r'] eqn:E.
  - destruct (Ascii.eqb c ch) eqn:Ec; simpl; [done|].
    intros [= ->]. by rewrite Ascii.eqb_refl in Ec.
  - exact IH.
Qed.

Lemma head_rstrip_char (ch : ascii) (x : string) (c : ascii) :
  head_char (rstrip ch x) = Some c → head_char x = Some c.
Proof.
  destruct x as [|a r]; simpl; [done|].
  destruct (rstrip ch r); [by destruct (Ascii.eqb a ch)|done].
Qed.

Lemma to_upper_not_lower (c : ascii) : is_lower (to_upper c) = false.
Proof. destruct c as [[] [] [] [] [] [] [] []]; reflexivity. Qed.

(** X19. The example phrases come out one for one: as many as were
    entered, none ending in a period and none starting with a lower-case
    letter; the state is unchanged. An interrupted prompt raises
    [KeyboardInterrupt]. *)
Theorem examples_outcome (s : CreateAction) (w : world) :
  match examples_input s with
  | Answered lines =>
      ∃ exs, examples s w = Return exs w
             ∧ List.length exs = List.length lines
             ∧ Forall (fun i => last_char i ≠ Some "."%char
                                ∧ ∀ c, head_char i = Some c → is_lower c = false) exs
  | Interrupted => examples s w = Raise KeyboardInterrupt w
  end.
Proof.
  unfold examples, bind. destruct (examples_input s) as [lines|]; simpl; [|done].
  eexists. split; [reflexivity|]. split; [by rewrite length_map|].
  apply Forall_map, Forall_forall. intros i _. simpl. split.
  - apply rstrip_no_trailing.
  - intros c Hc. apply head_rstrip_char in Hc. destruct i as [|a r]; [done|].
    simpl in Hc. injection Hc as <-. apply to_upper_not_lower.
Qed.

Lemma examples_outcome_witness :
  ∃ exs, examples sample_skill sample_world = Return exs sample_world
         ∧ List.length exs = 2
         ∧ Forall (fun i => last_char i ≠ Some "."%char
                            ∧ ∀ c, head_char i = Some c → is_lower c = false) exs.
Proof. exact (examples_outcome sample_skill sample_world). Defined.

(** ** All or nothing *)

Lemma confined_unchanged (s : CreateAction) {A} (c : cmd A) :
  (∀ w, fs (final_world (c w)) = fs w) → confined s c.
Proof. intros H w _. rewrite H. split; [done|by left]. Qed.

Lemma confined_bind (s : CreateAction) {A B} (c : cmd A) (k : A → cmd B) :
  frame c → confined s c → (∀ a, confined s (k a)) → confined s (bind c k).
Proof.
  intros Hf Hc Hk w Hinv. unfold bind.
  destruct (Hc w Hinv) as [Hout Hat]. specialize (Hf w).
  destruct (c w) as [a w1|e w1]; simpl in *; [|done].
  destruct (Hk a w1) as [Hout' Hat']; [by eapply grows_exists|].
  split.
  - intros q Hq. by rewrite Hout', Hout.
  - destruct Hat' as [->| ->]; [done|by right].
Qed.

Lemma confined_try_except (s : CreateAction) {A} (c : cmd A) catches
    (handler : exn → cmd A) :
  frame c → confined s c → (∀ e, confined s (handler e)) →
  confined s (try_except c catches handler).
Proof.
  intros Hf Hc Hh w Hinv. unfold try_except.
  destruct (Hc w Hinv) as [Hout Hat]. specialize (Hf w).
  destruct (c w) as [a w1|e w1]; simpl in *; [done|].
  destruct (catches e); [|done].
  destruct (Hh e w1) as [Hout' Hat']; [by eapply grows_exists|].
  split.
  - intros q Hq. by rewrite Hout', Hout.
  - destruct Hat' as [->| ->]; [done|by right].
Qed.

Lemma confined_if (s : CreateAction) {A} (b : bool) (c1 c2 : cmd A) :
  confined s c1 → confined s c2 → confined s (if b then c1 else c2).
Proof. by destruct b. Qed.

Lemma confined_ret (s : CreateAction) {A} (a : A) : confined s (ret a).
Proof. by apply confined_unchanged. Qed.

Lemma confined_untouched (s : CreateAction) {A} (c : cmd A) :
  (∀ q, ¬ path s `prefix_of` q ∨ q = path s → untouched q c) → confined s c.
Proof.
  intros H w _. split.
  - intros q Hq. apply H. by left.
  - left. apply H. by right.
Qed.

Lemma confined_mkdir (s : CreateAction) (p : pathname) :
  path s `prefix_of` p → confined s (mkdir p).
Proof.
  intros Hp w _. split.
  - intros q Hq. apply untouched_mkdir. by intros ->.
  - destruct (decide (path s = p)) as [<-|Hne]; [|left; by apply untouched_mkdir].
    unfold mkdir, parent_check.
    destruct (node_at (fs w) (path s)); [by left|].
    destruct (node_at (fs w) (removelast (path s))) as [[]|]; simpl;
      try (by left); right; apply lookup_insert_eq.
Qed.

Lemma prefix_proper (p : pathname) (c : string) (q : pathname) :
  p ++ [c] `prefix_of` q → q ≠ p.
Proof.
  intros [k Hk] ->. rewrite <- app_assoc in Hk.
  apply (f_equal List.length) in Hk. rewrite length_app in Hk. simpl in Hk. lia.
Qed.

Lemma confined_write_file (s : CreateAction) (p : pathname) (c text : string) :
  join_path (path s) c `prefix_of` p → confined s (write_file p text).
Proof.
  intros Hp. apply confined_untouched. intros q Hq. apply untouched_write_file.
  intros ->. destruct Hq as [Hq| Hq].
  - apply Hq. etrans; [|exact Hp]. by apply prefix_app_r.
  - by apply prefix_proper in Hp.
Qed.

Lemma prefix_snoc_cases (p q : pathname) (c : string) :
  p `prefix_of` q ++ [c] → p `prefix_of` q ∨ p = q ++ [c].
Proof.
  intros [k Hk]. destruct (decide (k = [])) as [->|Hne].
  - right. by rewrite app_nil_r in Hk.
  - left. destruct (exists_last Hne) as (k' & x & ->).
    rewrite app_assoc in Hk. apply app_inj_tail in Hk as [-> _]. by exists k'.
Qed.

Lemma confined_makedirs_rev (s : CreateAction) (rname : list string) :
  path s `prefix_of` reverse rname → confined s (makedirs_rev rname).
Proof.
  induction rname as [|c rhead IH]; intros Hp.
  { simpl. by apply confined_mkdir. }
  assert (confined s (mkdir (reverse (c :: rhead)))) as Hmk by by apply confined_mkdir.
  rewrite reverse_cons in Hp. intros w Hinv.
  destruct (exists_in w (reverse rhead)) eqn:Eh.
  - assert (makedirs_rev (c :: rhead) w = mkdir (reverse (c :: rhead)) w) as ->
      by (cbn [makedirs_rev]; unfold bind, path_exists; by rewrite Eh).
    by apply Hmk.
  - assert (makedirs_rev (c :: rhead) w
            = (try_except (makedirs_rev rhead) is_FileExistsError (fun _ => ret tt) ;;
               mkdir (reverse (c :: rhead))) w) as ->
      by (cbn [makedirs_rev]; unfold bind, path_exists; by rewrite Eh).
    apply prefix_snoc_cases in Hp as [Hp| Hp].
    + apply (confined_bind s); [| |intros _; exact Hmk|done].
      * apply frame_try_except; [apply frame_makedirs_rev|]. intros _. apply frame_ret.
      * apply confined_try_except; [apply frame_makedirs_rev|by apply IH|].
        intros _. apply confined_ret.
    + exfalso. unfold path, join_path in Hp. apply app_inj_tail in Hp as [Hp _].
      rewrite <- Hp in Eh. congruence.
Qed.

Lemma confined_makedirs (s : CreateAction) (p : pathname) :
  path s `prefix_of` p → confined s (makedirs p).
Proof. intros Hp. apply confined_makedirs_rev. by rewrite reverse_involutive. Qed.

Lemma confined_git_init (s : CreateAction) : confined s (git_init (path s)).
Proof.
  apply confined_untouched. intros q Hq. apply untouched_git_init.
  intros ->. destruct Hq as [Hq| Hq].
  - apply Hq. by apply prefix_app_r.
  - unfold git_dir, join_path in Hq. apply (f_equal List.length) in Hq.
    rewrite length_app in Hq. simpl in Hq. lia.
Qed.

Lemma prefix_join (p : pathname) (c : string) : p `prefix_of` join_path p c.
Proof. by apply prefix_app_r. Qed.

Lemma prefix_join2 (p : pathname) (c d : string) :
  p `prefix_of` join_path (join_path p c) d.
Proof. unfold join_path. rewrite <- app_assoc. by apply prefix_app_r. Qed.

Lemma prefix_join3 (p : pathname) (c d e : string) :
  p `prefix_of` join_path (join_path (join_path p c) d) e.
Proof. unfold join_path. rewrite <- !app_assoc. by apply prefix_app_r. Qed.

Lemma confined_subdir (s : CreateAction) (sub text : string) (lf : string → string) :
  confined s (let! x := lang s in
              makedirs (join_path (join_path (path s) sub) x) ;;
              write_file (join_path (join_path (join_path (path s) sub) x) (lf x)) text ;;
              ret PNone).
Proof.
  apply confined_bind; [apply frame_lang| |intros x].
  { apply confined_untouched. intros q _. unfold lang.
    apply untouched_bind; [apply untouched_ask|]. intros ?. apply untouched_ret. }
  apply confined_bind; [apply frame_makedirs| |intros _].
  { apply confined_makedirs, prefix_join2. }
  apply confined_bind; [apply frame_write_file| |intros _; apply confined_ret].
  apply (confined_write_file s _ sub). unfold join_path.
  by do 2 apply prefix_app_r.
Qed.

Lemma confined_text (s : CreateAction) {A} (c : cmd string) (k : string → A) :
  frame c → (∀ w, fs (final_world (c w)) = fs w) →
  confined s (let! text := c in ret (k text)).
Proof.
  intros Hf H. apply confined_bind; [done|by apply confined_unchanged|].
  intros. apply confined_ret.
Qed.

Lemma confined_skill_template (s : CreateAction) :
  Forall (fun e : entry => confined s e.2) (skill_template s).
Proof.
  unfold skill_template.
  repeat (apply Forall_cons_2; [simpl|]); [..|apply Forall_nil_2].
  - apply confined_bind; [apply frame_makedirs| |intros; apply confined_ret].
    by apply confined_makedirs.
  - apply confined_text; [apply frame_init_file|]. intros w. apply unchanged_format_or_raise.
  - apply confined_text; [apply frame_readme|apply unchanged_readme].
  - apply (confined_subdir s "vocab" _ (fun _ => _)).
  - apply (confined_subdir s "dialog" _ (fun _ => _)).
  - apply confined_ret.
  - apply confined_text; [apply frame_settingsmeta|]. intros w. apply unchanged_format_or_raise.
  - apply confined_bind; [apply frame_git_init|apply confined_git_init|].
    intros. apply confined_ret.
Qed.

Lemma confined_run_entry (s : CreateAction) files (e : entry) :
  frame e.2 → confined s e.2 → confined s (run_entry (path s) files e).
Proof.
  intros Hf He. unfold run_entry. apply confined_if; [apply confined_ret|].
  apply confined_bind; [apply frame_path_exists|by apply confined_unchanged|]. intros b.
  apply confined_if; [|apply confined_ret].
  apply confined_bind; [done|done|]. intros [|text]; [apply confined_ret|].
  apply confined_bind; [apply frame_path_exists|by apply confined_unchanged|]. intros b'.
  apply confined_if; [|apply confined_ret].
  by apply (confined_write_file s _ e.1).
Qed.

Lemma confined_entries (s : CreateAction) files (template : list entry) :
  Forall (fun e : entry => frame e.2) template →
  Forall (fun e : entry => confined s e.2) template →
  confined s (for_each template (run_entry (path s) files)).
Proof.
  induction template as [|e rest IH]; intros Hf Hc; simpl; [apply confined_ret|].
  apply Forall_cons in Hf as [Hfe Hf]. apply Forall_cons in Hc as [Hce Hc].
  apply confined_bind; [by apply frame_run_entry|by apply confined_run_entry|].
  intros _. by apply IH.
Qed.

Lemma wf_ancestor (m : gmap pathname node) (p k : pathname) (n : node) :
  fs_wf m → m !! (p ++ k) = Some n → k ≠ [] →
  ∃ d, node_at m p = Some d ∧ is_dir_node d = true.
Proof.
  intros Hwf. revert n. induction k as [|c k IH] using rev_ind; intros n Hn Hk; [done|].
  rewrite app_assoc in Hn.
  destruct (Hwf _ _ Hn) as (d & Hd & Hdir); [by destruct (p ++ k)|].
  rewrite removelast_last in Hd.
  destruct (decide (k = [])) as [->|Hne]; [rewrite app_nil_r in Hd; eauto|].
  rewrite node_at_nonroot in Hd by (destruct p, k; done). by eapply IH.
Qed.


